(** * LinearTransformations: a model of the 2x2 transformation playground

    The development follows the TypeScript sources file by file:
    [types.ts], [utils/linearAlgebra.ts], [hooks/useAnimationFrame.ts],
    [App.tsx] (the state container and its update handlers),
    [components/CanvasView.tsx] (the camera model, the grid and the pointer
    and wheel handlers) and [utils/presets.ts].

    Numbers.  The main model takes a JavaScript [number] as a real number:
    sums, products and quotients are the exact ones and comparisons are the
    order of the reals.  It describes the code on finite values and up to
    the rounding of binary64; it has no NaN and no infinity.  Where the
    special values or the rounding decide the behaviour, the same source
    functions are given again on binary64 floats in the module [Binary64]:
    [clamp] with [Math.min] and [Math.max], the two updates of t, and
    [Number.prototype.toFixed] for [formatNumber]. *)

From Stdlib Require Import Reals Lra Lia List String Ascii Bool ZArith.
From Stdlib Require PrimFloat Floats DecimalString.
Import ListNotations.

Local Open Scope R_scope.

(** ** types.ts *)

(** A [number] of the main model.  The platform's number is a binary64
    float; a real is that number without its rounding and without NaN and
    the infinities, see [Binary64.number]. *)
Definition number := R.

Record Matrix := mkMatrix { a : number; b : number; c : number; d : number }.

Record Vector2 := mkVector2 { x : number; y : number }.

(** [PinnedVector = Vector2 & { Tx; Ty }]: the intersection is a record that
    can be read as a [Vector2]. *)
Record PinnedVector := mkPinnedVector
  { pinned_vector :> Vector2; Tx : number; Ty : number }.

Inductive GridMode := original | transformed | both.

Record CameraState := mkCamera
  { offsetX : number; offsetY : number; zoom : number }.

Record AppState := mkAppState
  { matrix : Matrix;
    t : number;
    probeVector : Vector2;
    pinnedVectors : list PinnedVector;
    camera : CameraState;
    gridMode : GridMode;
    presetId : option string;
    isPlaying : bool }.

(** ** utils/linearAlgebra.ts *)

Definition identityMatrix : Matrix := mkMatrix 1 0 0 1.

Definition multiplyMatrixVector (matrix : Matrix) (vector : Vector2) : Vector2 :=
  let '(mkMatrix a b c d) := matrix in
  {| x := a * x vector + b * y vector;
     y := c * x vector + d * y vector |}.

Definition determinant (matrix : Matrix) : number :=
  let '(mkMatrix a b c d) := matrix in
  a * d - b * c.

Definition interpolatePoint (point : Vector2) (matrix : Matrix) (t : number)
  : Vector2 :=
  let transformed := multiplyMatrixVector matrix point in
  {| x := (1 - t) * x point + t * x transformed;
     y := (1 - t) * y point + t * y transformed |}.

Definition interpolateVector (vector : Vector2) (matrix : Matrix) (t : number)
  : Vector2 :=
  interpolatePoint vector matrix t.


(** [Math.min(max, Math.max(min, value))], on reals; with NaN and the
    signed zeros it is [Binary64.clamp]. *)
Definition clamp (value min max : number) : number :=
  Rmin max (Rmax min value).

(** *** formatNumber

    [value] is a binary64 float here, so that NaN and the two infinities
    exist.  [Number.prototype.toFixed] belongs to the platform: it is taken
    as a parameter, and since it may throw (a [RangeError] for a digit count
    it does not accept) its result is a completion. *)

Inductive Completion (A : Type) :=
| Normal (value : A)
| Throw (error : string).
Arguments Normal {A} value.
Arguments Throw {A} error.

(** The string literal returned for a value that is not finite, with the
    bytes it has in [linearAlgebra.ts]. *)
Definition SENTINEL : string := "â€”".

Definition DEFAULT_PRECISION : PrimFloat.float := PrimFloat.two.

Section FormatNumber.

Variable toFixed : PrimFloat.float -> PrimFloat.float -> Completion string.

(** [precision = 2] is a default parameter: [None] is the omitted
    argument. *)
Definition formatNumber (value : PrimFloat.float)
                        (precision : option PrimFloat.float)
  : Completion string :=
  let precision :=
    match precision with Some p => p | None => DEFAULT_PRECISION end in
  if PrimFloat.is_nan value || negb (PrimFloat.is_finite value)
  then Normal SENTINEL
  else toFixed value precision.

End FormatNumber.

(** ** utils/presets.ts (the type only) *)

Module Preset.
Record Preset := mkPreset
  { id : string; label : string; matrix : Matrix; description : string }.
End Preset.

(** ** App.tsx *)

Definition INITIAL_CAMERA : CameraState :=
  {| offsetX := 0; offsetY := 0; zoom := 80 |}.

Definition INITIAL_STATE : AppState :=
  {| matrix := identityMatrix;
     t := 1;
     probeVector := {| x := 1; y := 1 |};
     pinnedVectors := [];
     camera := INITIAL_CAMERA;
     gridMode := both;
     presetId := Some "identity"%string;
     isPlaying := false |}.

(** [===] on two numbers. *)
Definition strictEq (u v : number) : bool :=
  if Req_dec_T u v then true else false.

Definition matricesEqual (m1 m2 : Matrix) : bool :=
  strictEq (a m1) (a m2) && strictEq (b m1) (b m2)
  && strictEq (c m1) (c m2) && strictEq (d m1) (d m2).

(** The component owns the state of [useState] and the mutable cell
    [directionRef = useRef(1)]; every handler is a function of this store.
    The updater passed to [setState] receives the latest state, which is the
    [state] of the store. *)
Record AppStore := mkAppStore { state : AppState; directionRef : number }.

Definition INITIAL_STORE : AppStore :=
  {| state := INITIAL_STATE; directionRef := 1 |}.

(** [{ ...prev, field: v }] for each field the handlers replace. *)
Definition with_matrix (prev : AppState) (v : Matrix) : AppState :=
  mkAppState v (t prev) (probeVector prev) (pinnedVectors prev) (camera prev)
             (gridMode prev) (presetId prev) (isPlaying prev).
Definition with_t (prev : AppState) (v : number) : AppState :=
  mkAppState (matrix prev) v (probeVector prev) (pinnedVectors prev)
             (camera prev) (gridMode prev) (presetId prev) (isPlaying prev).
Definition with_probeVector (prev : AppState) (v : Vector2) : AppState :=
  mkAppState (matrix prev) (t prev) v (pinnedVectors prev) (camera prev)
             (gridMode prev) (presetId prev) (isPlaying prev).
Definition with_pinnedVectors (prev : AppState) (v : list PinnedVector)
  : AppState :=
  mkAppState (matrix prev) (t prev) (probeVector prev) v (camera prev)
             (gridMode prev) (presetId prev) (isPlaying prev).
Definition with_camera (prev : AppState) (v : CameraState) : AppState :=
  mkAppState (matrix prev) (t prev) (probeVector prev) (pinnedVectors prev) v
             (gridMode prev) (presetId prev) (isPlaying prev).
Definition with_gridMode (prev : AppState) (v : GridMode) : AppState :=
  mkAppState (matrix prev) (t prev) (probeVector prev) (pinnedVectors prev)
             (camera prev) v (presetId prev) (isPlaying prev).
Definition with_presetId (prev : AppState) (v : option string) : AppState :=
  mkAppState (matrix prev) (t prev) (probeVector prev) (pinnedVectors prev)
             (camera prev) (gridMode prev) v (isPlaying prev).
Definition with_isPlaying (prev : AppState) (v : bool) : AppState :=
  mkAppState (matrix prev) (t prev) (probeVector prev) (pinnedVectors prev)
             (camera prev) (gridMode prev) (presetId prev) v.

(** [setState(updater)]: the updater runs on the state, the ref is kept. *)
Definition setState (updater : AppState -> AppState) (s : AppStore)
  : AppStore :=
  {| state := updater (state s); directionRef := directionRef s |}.

(** [useMemo(() => multiplyMatrixVector(state.matrix, state.probeVector))]. *)
Definition transformedProbe (st : AppState) : Vector2 :=
  multiplyMatrixVector (matrix st) (probeVector st).

Definition handlePresetChange (preset : Preset.Preset) : AppStore -> AppStore :=
  setState (fun prev =>
    with_presetId (with_matrix prev (Preset.matrix preset))
                  (Some (Preset.id preset))).

Definition handleMatrixChange (matrix : Matrix) : AppStore -> AppStore :=
  setState (fun prev =>
    with_presetId (with_matrix prev matrix)
      (Some (if matricesEqual matrix identityMatrix
             then "identity" else "custom")%string)).

Definition handlePlayPause : AppStore -> AppStore :=
  setState (fun prev => with_isPlaying prev (negb (isPlaying prev))).

Definition handleTChange (value : number) : AppStore -> AppStore :=
  setState (fun prev => with_isPlaying (with_t prev (clamp value 0 1)) false).

Definition handleProbeChange (vector : Vector2) : AppStore -> AppStore :=
  setState (fun prev => with_probeVector prev vector).

(** [array.slice(-n)]: the last [n] elements, all of them when there are
    fewer. *)
Definition slice_last {A : Type} (n : nat) (l : list A) : list A :=
  List.skipn (List.length l - n) l.

(** The callback closes over [transformedProbe] of the render it was created
    in (its dependency list is [transformedProbe.x, transformedProbe.y]); the
    captured value is the first argument. *)
Definition handlePinVector (captured : Vector2) : AppStore -> AppStore :=
  setState (fun prev =>
    let newPin : PinnedVector :=
      {| pinned_vector := {| x := x (probeVector prev);
                             y := y (probeVector prev) |};
         Tx := x captured;
         Ty := y captured |} in
    let limitedPins := slice_last 6 (pinnedVectors prev ++ [newPin]) in
    with_pinnedVectors prev limitedPins).

Definition handleGridModeChange (mode : GridMode) : AppStore -> AppStore :=
  setState (fun prev => with_gridMode prev mode).

Definition handleCameraChange (camera : CameraState) : AppStore -> AppStore :=
  setState (fun prev => with_camera prev camera).

Definition handleResetCamera : AppStore -> AppStore :=
  setState (fun prev => with_camera prev INITIAL_CAMERA).

(** [const speed = 0.0004]. *)
Definition speed : number := 0.0004.

(** The updater of [handleAnimationFrame] also writes [directionRef]; it is
    a function of the whole store. *)
Definition handleAnimationFrame (delta : number) (s : AppStore) : AppStore :=
  let prev := state s in
  if negb (isPlaying prev) then s
  else
    let nextT := t prev + delta * speed * directionRef s in
    let direction := directionRef s in
    if Rge_dec nextT 1 then
      {| state := with_t prev 1; directionRef := -1 |}
    else if Rle_dec nextT 0 then
      {| state := with_t prev 0; directionRef := 1 |}
    else
      {| state := with_t prev nextT; directionRef := direction |}.

(** ** hooks/useAnimationFrame.ts *)

(** One run of [loop(time)]: the callback is called with the time elapsed
    since the previous frame when there is one, and [previousRef] becomes the
    time of this frame.  The result is the new store and the new
    [previousRef]. *)
Definition loop {S : Type} (callback : number -> S -> S) (time : number)
                (previousRef : option number) (s : S) : S * option number :=
  (match previousRef with
   | Some previous => callback (time - previous) s
   | None => s
   end,
   Some time).

(** The effect with [active = false], and the cleanup of the effect: the
    pending frame is cancelled and [previousRef] is cleared. *)
Definition deactivate (previousRef : option number) : option number := None.

(** ** components/CanvasView.tsx *)

Definition ScreenPoint := Vector2.

Definition GRID_RANGE : number := 10.
Definition GRID_STEP : number := 1.
Definition GRID_SAMPLES : number := 32.
Definition MIN_ZOOM : number := 20.
Definition MAX_ZOOM : number := 400.

Definition worldToScreen (camera : CameraState) (point : Vector2)
                         (width height : number) : ScreenPoint :=
  {| x := (x point - offsetX camera) * zoom camera + width / 2;
     y := height / 2 - (y point - offsetY camera) * zoom camera |}.

Definition screenToWorld (camera : CameraState) (point : ScreenPoint)
                         (width height : number) : Vector2 :=
  {| x := (x point - width / 2) / zoom camera + offsetX camera;
     y := (- (y point - height / 2)) / zoom camera + offsetY camera |}.

(** [Math.hypot(u, v)]. *)
Definition hypot (u v : number) : number := sqrt (u * u + v * v).

(** [canvas.getBoundingClientRect()]. *)
Record DOMRect := mkRect
  { left : number; top : number; width : number; height : number }.

Record MouseEvent := mkMouseEvent { clientX : number; clientY : number }.

(** A wheel event is a mouse event with a [deltaY]. *)
Record WheelEvent := mkWheelEvent
  { wheel_mouse :> MouseEvent; deltaY : number }.

(** [dragModeRef.current]. *)
Inductive DragMode := none | vector | pan.

(** The three mutable cells of the component. *)
Record Refs := mkRefs
  { dragModeRef : DragMode;
    pointerMovedRef : bool;
    lastPointerRef : ScreenPoint }.

Definition INITIAL_REFS : Refs :=
  {| dragModeRef := none;
     pointerMovedRef := false;
     lastPointerRef := {| x := 0; y := 0 |} |}.

(** What a handler asks of its owner: the calls it makes to the two callback
    props, in order. *)
Inductive Callback :=
| onProbeChange (vector : Vector2)
| onCameraChange (camera : CameraState).

(** In every handler [canvas] is [canvasRef.current] seen through its
    bounding rectangle: [None] is the missing canvas, on which the handler
    returns at once. [camera] and [probeVector] are the props of the render
    the handler belongs to. *)

Definition eventPoint (rect : DOMRect) (event : MouseEvent) : ScreenPoint :=
  {| x := clientX event - left rect; y := clientY event - top rect |}.

Definition handlePointerDown (canvas : option DOMRect) (camera : CameraState)
    (probeVector : Vector2) (event : MouseEvent) (refs : Refs) : Refs :=
  match canvas with
  | None => refs
  | Some rect =>
      let point := eventPoint rect event in
      let probeTipScreen :=
        worldToScreen camera probeVector (width rect) (height rect) in
      let distance :=
        hypot (x probeTipScreen - x point) (y probeTipScreen - y point) in
      {| dragModeRef := if Rlt_dec distance 16 then vector else pan;
         pointerMovedRef := false;
         lastPointerRef := point |}
  end.

Definition handlePointerMove (canvas : option DOMRect) (camera : CameraState)
    (event : MouseEvent) (refs : Refs) : Refs * list Callback :=
  match canvas with
  | None => (refs, [])
  | Some rect =>
      let point := eventPoint rect event in
      let lastPoint := lastPointerRef refs in
      let dx := x point - x lastPoint in
      let dy := y point - y lastPoint in
      match dragModeRef refs with
      | vector =>
          let world := screenToWorld camera point (width rect) (height rect) in
          ({| dragModeRef := vector;
              pointerMovedRef := true;
              lastPointerRef := point |},
           [onProbeChange world])
      | pan =>
          let newCamera :=
            {| offsetX := offsetX camera - dx / zoom camera;
               offsetY := offsetY camera + dy / zoom camera;
               zoom := zoom camera |} in
          ({| dragModeRef := pan;
              pointerMovedRef := true;
              lastPointerRef := point |},
           [onCameraChange newCamera])
      | none =>
          ({| dragModeRef := none;
              pointerMovedRef := pointerMovedRef refs;
              lastPointerRef := point |},
           [])
      end
  end.

Definition endPointerInteraction (canvas : option DOMRect)
    (camera : CameraState) (event : MouseEvent) (refs : Refs)
  : Refs * list Callback :=
  match canvas with
  | None => (refs, [])
  | Some rect =>
      let point := eventPoint rect event in
      let calls :=
        match dragModeRef refs, pointerMovedRef refs with
        | pan, false =>
            [onProbeChange
               (screenToWorld camera point (width rect) (height rect))]
        | _, _ => []
        end in
      ({| dragModeRef := none;
          pointerMovedRef := false;
          lastPointerRef := lastPointerRef refs |},
       calls)
  end.

Definition handleWheel (canvas : option DOMRect) (camera : CameraState)
    (event : WheelEvent) : list Callback :=
  match canvas with
  | None => []
  | Some rect =>
      let pointer := eventPoint rect event in
      let zoomFactor := exp (- deltaY event * 0.001) in
      let newZoom := clamp (zoom camera * zoomFactor) MIN_ZOOM MAX_ZOOM in
      let beforeZoom :=
        screenToWorld camera pointer (width rect) (height rect) in
      let newCamera :=
        {| offsetX := offsetX camera;
           offsetY := offsetY camera;
           zoom := newZoom |} in
      let afterZoom : Vector2 :=
        {| x := (x pointer - width rect / 2) / newZoom + offsetX newCamera;
           y := (- (y pointer - height rect / 2)) / newZoom
                + offsetY newCamera |} in
      let newCamera :=
        {| offsetX := offsetX newCamera + (x beforeZoom - x afterZoom);
           offsetY := offsetY newCamera + (y beforeZoom - y afterZoom);
           zoom := zoom newCamera |} in
      [onCameraChange newCamera]
  end.

(** ** The application as a transition system

    [App] renders [Sidebar] and [CanvasView] and wires their callback props
    to its handlers; [useAnimationFrame(handleAnimationFrame,
    state.isPlaying)] delivers frames while the state is playing.  Handlers
    run to completion one after the other, so a run of the application is a
    sequence of events, each applied to the stores of the components. *)

Record System := mkSystem
  { app : AppStore;              (* App: useState and directionRef *)
    canvasRefs : Refs;           (* CanvasView: its three refs *)
    previousRef : option number  (* useAnimationFrame: previousRef *) }.

Definition INITIAL_SYSTEM : System :=
  {| app := INITIAL_STORE; canvasRefs := INITIAL_REFS; previousRef := None |}.

(** [onProbeChange={handleProbeChange} onCameraChange={handleCameraChange}]. *)
Definition dispatch (call : Callback) : AppStore -> AppStore :=
  match call with
  | onProbeChange v => handleProbeChange v
  | onCameraChange cam => handleCameraChange cam
  end.

Definition dispatchAll (calls : list Callback) (s : AppStore) : AppStore :=
  fold_left (fun s call => dispatch call s) calls s.

Inductive Event :=
| PresetChange (preset : Preset.Preset)
| MatrixChange (matrix : Matrix)
| PlayPause
| TChange (value : number)
| ProbeChange (vector : Vector2)
| PinVector
| GridModeChange (mode : GridMode)
| ResetCamera
| AnimationFrame (time : number)
| PointerDown (canvas : option DOMRect) (event : MouseEvent)
| PointerMove (canvas : option DOMRect) (event : MouseEvent)
| PointerUp (canvas : option DOMRect) (event : MouseEvent)
| PointerLeave (canvas : option DOMRect) (event : MouseEvent)
| Wheel (canvas : option DOMRect) (event : WheelEvent).

Definition onApp (f : AppStore -> AppStore) (sys : System) : System :=
  {| app := f (app sys);
     canvasRefs := canvasRefs sys;
     previousRef := previousRef sys |}.

Definition onCanvas (r : Refs * list Callback) (sys : System) : System :=
  {| app := dispatchAll (snd r) (app sys);
     canvasRefs := fst r;
     previousRef := previousRef sys |}.

Definition handle (ev : Event) (sys : System) : System :=
  let st := state (app sys) in
  match ev with
  | PresetChange preset => onApp (handlePresetChange preset) sys
  | MatrixChange m => onApp (handleMatrixChange m) sys
  | PlayPause => onApp handlePlayPause sys
  | TChange value => onApp (handleTChange value) sys
  | ProbeChange v => onApp (handleProbeChange v) sys
  | PinVector => onApp (handlePinVector (transformedProbe st)) sys
  | GridModeChange mode => onApp (handleGridModeChange mode) sys
  | ResetCamera => onApp handleResetCamera sys
  | AnimationFrame time =>
      (* a frame is requested only by the effect with [active = true] *)
      if isPlaying st then
        let r := loop handleAnimationFrame time (previousRef sys) (app sys) in
        {| app := fst r; canvasRefs := canvasRefs sys; previousRef := snd r |}
      else sys
  | PointerDown canvas event =>
      {| app := app sys;
         canvasRefs :=
           handlePointerDown canvas (camera st) (probeVector st) event
                             (canvasRefs sys);
         previousRef := previousRef sys |}
  | PointerMove canvas event =>
      onCanvas (handlePointerMove canvas (camera st) event (canvasRefs sys)) sys
  | PointerUp canvas event | PointerLeave canvas event =>
      onCanvas (endPointerInteraction canvas (camera st) event (canvasRefs sys))
               sys
  | Wheel canvas event =>
      onCanvas (canvasRefs sys, handleWheel canvas (camera st) event) sys
  end.

(** After the handler the effect of [useAnimationFrame] runs again when
    [active] has changed; with [active = false] it clears [previousRef]. *)
Definition step (ev : Event) (sys : System) : System :=
  let sys' := handle ev sys in
  if isPlaying (state (app sys')) then sys'
  else {| app := app sys';
          canvasRefs := canvasRefs sys';
          previousRef := deactivate (previousRef sys') |}.

Inductive reachable : System -> Prop :=
| reachable_initial : reachable INITIAL_SYSTEM
| reachable_step (ev : Event) (sys : System) :
    reachable sys -> reachable (step ev sys).

(** The interval of the interpolation parameter. *)
Definition unit_interval (u : number) : Prop := 0 <= u <= 1.

(** The bounds of the camera zoom. *)
Definition zoom_in_bounds (z : number) : Prop := MIN_ZOOM <= z <= MAX_ZOOM.

(** What every reachable store of [App] satisfies. *)
Definition app_invariant (s : AppStore) : Prop :=
  unit_interval (t (state s))
  /\ (List.length (pinnedVectors (state s)) <= 6)%nat
  /\ (directionRef s = 1 \/ directionRef s = -1)
  /\ zoom_in_bounds (zoom (camera (state s))).

(** Every camera that the canvas handlers pass to [onCameraChange] has its
    zoom in bounds when the camera they read has. *)
Definition calls_in_bounds (calls : list Callback) : Prop :=
  Forall (fun call =>
            match call with
            | onCameraChange cam => zoom_in_bounds (zoom cam)
            | onProbeChange _ => True
            end) calls.

(** The entry that [handlePinVector] appends. *)
Definition newPin (prev : AppState) (captured : Vector2) : PinnedVector :=
  {| pinned_vector := {| x := x (probeVector prev); y := y (probeVector prev) |};
     Tx := x captured;
     Ty := y captured |}.

(** ** Sample inputs *)

(** The store after the slider was set to 0.5 and play was pressed. *)
Definition playing_store : AppStore :=
  handlePlayPause (handleTChange 0.5 INITIAL_STORE).

Definition sample_rect : DOMRect :=
  {| left := 0; top := 0; width := 800; height := 600 |}.

(** [n] presses of the pin button. *)
Fixpoint pin_times (n : nat) (s : AppStore) : AppStore :=
  match n with
  | O => s
  | S n' =>
      let s' := pin_times n' s in
      handlePinVector (transformedProbe (state s')) s'
  end.

Definition full_store : AppStore := pin_times 6 INITIAL_STORE.

(** ** Further parts of the sources *)



(** *** utils/presets.ts

    The template literals print a number into the id, the label and the
    description; the platform's conversion of a number to a string is a
    parameter. *)

Section Presets.

Variable numberToString : number -> string.

(** [cos], [sin] and [PI] are the real functions and the real constant, of
    which [Math.cos], [Math.sin] and [Math.PI] give the binary64
    roundings. *)
Definition rotationPreset (degrees : number) : Preset.Preset :=
  let radians := (degrees * PI) / 180 in
  let cos := cos radians in
  let sin := sin radians in
  {| Preset.id := "rotation-" ++ numberToString degrees;
     Preset.label := "Rotation " ++ numberToString degrees ++ "°";
     Preset.matrix := {| a := cos; b := - sin; c := sin; d := cos |};
     Preset.description :=
       "Rotates all vectors " ++ numberToString degrees
       ++ "° counterclockwise around the origin. det = 1, area preserved." |}%string.

Definition shearXPreset (k : number) : Preset.Preset :=
  {| Preset.id := "shear-x-" ++ numberToString k;
     Preset.label := "Shear X (k=" ++ numberToString k ++ ")";
     Preset.matrix := {| a := 1; b := k; c := 0; d := 1 |};
     Preset.description :=
       "Slides points horizontally by " ++ numberToString k
       ++ " times their y-coordinate. det = 1, area preserved." |}%string.

Definition shearYPreset (k : number) : Preset.Preset :=
  {| Preset.id := "shear-y-" ++ numberToString k;
     Preset.label := "Shear Y (k=" ++ numberToString k ++ ")";
     Preset.matrix := {| a := 1; b := 0; c := k; d := 1 |};
     Preset.description :=
       "Slides points vertically by " ++ numberToString k
       ++ " times their x-coordinate. det = 1, area preserved." |}%string.

Definition customPreset : Preset.Preset :=
  {| Preset.id := "custom";
     Preset.label := "Custom";
     Preset.matrix := {| a := 1; b := 0; c := 0; d := 1 |};
     Preset.description :=
       "Edit the matrix entries below to explore any linear transformation you like." |}%string.

Definition presets : list Preset.Preset :=
  ([ {| Preset.id := "identity";
        Preset.label := "Identity";
        Preset.matrix := {| a := 1; b := 0; c := 0; d := 1 |};
        Preset.description :=
          "Leaves every vector unchanged. det = 1, area preserved." |} ]
   ++ List.map rotationPreset [15; 30; 45; 60; 90; 120; 180]
   ++ [ {| Preset.id := "scale-x2";
           Preset.label := "Scale x2, y1";
           Preset.matrix := {| a := 2; b := 0; c := 0; d := 1 |};
           Preset.description :=
             "Stretches horizontally by 2 and leaves vertical length unchanged. det = 2, area doubles." |};
        {| Preset.id := "scale-y-half";
           Preset.label := "Scale x1, y0.5";
           Preset.matrix := {| a := 1; b := 0; c := 0; d := 0.5 |};
           Preset.description :=
             "Keeps horizontal length and squishes vertical length by 0.5. det = 0.5, area halves." |};
        {| Preset.id := "scale-x2-y-half";
           Preset.label := "Scale x2, y0.5";
           Preset.matrix := {| a := 2; b := 0; c := 0; d := 0.5 |};
           Preset.description :=
             "Stretches horizontally by 2 and squishes vertically by 0.5. det = 1, area preserved." |};
        shearXPreset 0.5;
        shearXPreset 1;
        shearYPreset 0.5;
        shearYPreset 1;
        {| Preset.id := "reflect-x";
           Preset.label := "Reflection across x-axis";
           Preset.matrix := {| a := 1; b := 0; c := 0; d := -1 |};
           Preset.description :=
             "Flips vectors over the x-axis. det = -1, orientation flips, area preserved." |};
        {| Preset.id := "reflect-y";
           Preset.label := "Reflection across y-axis";
           Preset.matrix := {| a := -1; b := 0; c := 0; d := 1 |};
           Preset.description :=
             "Flips vectors over the y-axis. det = -1, orientation flips, area preserved." |};
        {| Preset.id := "reflect-yx";
           Preset.label := "Reflection across line y = x";
           Preset.matrix := {| a := 0; b := 1; c := 1; d := 0 |};
           Preset.description :=
             "Swaps x and y coordinates. det = -1, orientation flips, area preserved." |};
        {| Preset.id := "proj-x";
           Preset.label := "Projection onto x-axis";
           Preset.matrix := {| a := 1; b := 0; c := 0; d := 0 |};
           Preset.description :=
             "Flattens every vector onto the x-axis. det = 0, not invertible." |};
        {| Preset.id := "proj-y";
           Preset.label := "Projection onto y-axis";
           Preset.matrix := {| a := 0; b := 0; c := 0; d := 1 |};
           Preset.description :=
             "Flattens every vector onto the y-axis. det = 0, not invertible." |};
        customPreset ])%list.

(** A JavaScript [Map] with string keys, in insertion order: [set] replaces
    the value of a key that is present and appends a key that is not. *)
Fixpoint Map_set {V : Type} (key : string) (value : V)
                 (m : list (string * V)) : list (string * V) :=
  match m with
  | [] => [(key, value)]
  | (k, v) :: rest =>
      if String.eqb k key then (k, value) :: rest
      else (k, v) :: Map_set key value rest
  end.

Fixpoint Map_get {V : Type} (key : string) (m : list (string * V))
  : option V :=
  match m with
  | [] => None
  | (k, v) :: rest => if String.eqb k key then Some v else Map_get key rest
  end.

(** [new Map(presets.map((preset) => [preset.id, preset]))]: the entries are
    set one after the other. *)
Definition presetMap : list (string * Preset.Preset) :=
  fold_left (fun m entry => Map_set (fst entry) (snd entry) m)
            (List.map (fun preset => (Preset.id preset, preset)) presets) [].

(** App.tsx, [currentPreset]: [!state.presetId] holds for [null] and for
    the empty string; [??] takes the right side when the left is
    [undefined]. *)
Definition currentPreset (presetId : option string) : option Preset.Preset :=
  match presetId with
  | None => Map_get "custom" presetMap
  | Some id =>
      if String.eqb id "" then Map_get "custom" presetMap
      else match Map_get id presetMap with
           | Some preset => Some preset
           | None => Map_get "custom" presetMap
           end
  end.

(** Sidebar.tsx, the preset selector:
    [presets.find((item) => item.id === value) ?? presets.at(-1)!]. *)
Definition selectedPreset (value : string) : option Preset.Preset :=
  match List.find (fun item => String.eqb (Preset.id item) value) presets with
  | Some preset => Some preset
  | None => List.last (List.map Some presets) None
  end.

End Presets.

(** *** CanvasView.tsx, drawGrid

    The calls made on the 2D context, in order.  [stroke], [save] and the
    like are the methods of the context, the setters are its assigned
    properties. *)
Inductive CanvasOp :=
| save
| restore
| setLineWidth (value : number)
| setStrokeStyle (color : string)
| setGlobalAlpha (value : number)
| beginPath
| moveTo (px py : number)
| lineTo (px py : number)
| stroke.

(** [for (let v = start; v <= bound; v += step) out.push(body(v))]; the
    number of iterations is bounded by [fuel]. *)
Fixpoint forUpTo {A : Type} (fuel : nat) (v bound step : number)
                 (body : number -> A) : list A :=
  match fuel with
  | O => []
  | S fuel' =>
      if Rle_dec v bound
      then body v :: forUpTo fuel' (v + step) bound step body
      else []
  end.

Definition drawLine (camera : CameraState) (width height : number)
                    (points : list Vector2) : list CanvasOp :=
  match points with
  | [] => []
  | first :: rest =>
      let first := worldToScreen camera first width height in
      [beginPath; moveTo (x first) (y first)]
      ++ List.map (fun point =>
                     let screenPoint :=
                       worldToScreen camera point width height in
                     lineTo (x screenPoint) (y screenPoint)) rest
      ++ [stroke]
  end.

(** The sample points of the grid line at [x] (a vertical line) and at [y]
    (a horizontal line). *)
Definition gridSample (matrix : Matrix) (t : number) (drawTransformed : bool)
                      (originalPoint : Vector2) : Vector2 :=
  if drawTransformed then multiplyMatrixVector matrix originalPoint
  else interpolatePoint originalPoint matrix t.

Definition verticalLine (fuel : nat) (matrix : Matrix) (t : number)
                        (drawTransformed : bool) (x : number)
  : list Vector2 :=
  forUpTo fuel 0 GRID_SAMPLES 1
    (fun i =>
       let y := - GRID_RANGE + (i / GRID_SAMPLES) * GRID_RANGE * 2 in
       gridSample matrix t drawTransformed (mkVector2 x y)).

Definition horizontalLine (fuel : nat) (matrix : Matrix) (t : number)
                          (drawTransformed : bool) (y : number)
  : list Vector2 :=
  forUpTo fuel 0 GRID_SAMPLES 1
    (fun i =>
       let x := - GRID_RANGE + (i / GRID_SAMPLES) * GRID_RANGE * 2 in
       gridSample matrix t drawTransformed (mkVector2 x y)).

(** The world points of the grid lines, in the order they are drawn. *)
Definition gridLines (fuel : nat) (matrix : Matrix) (t : number)
                     (drawTransformed : bool) : list (list Vector2) :=
  forUpTo fuel (- GRID_RANGE) GRID_RANGE GRID_STEP
          (verticalLine fuel matrix t drawTransformed)
  ++ forUpTo fuel (- GRID_RANGE) GRID_RANGE GRID_STEP
             (horizontalLine fuel matrix t drawTransformed).

Definition drawGrid (fuel : nat) (camera : CameraState) (matrix : Matrix)
                    (t : number) (width height : number) (color : string)
                    (drawTransformed : bool) : list CanvasOp :=
  [save; setLineWidth 1; setStrokeStyle color;
   setGlobalAlpha (if drawTransformed then 0.5 else 0.8)]
  ++ List.concat
       (List.map (drawLine camera width height)
                 (gridLines fuel matrix t drawTransformed))
  ++ [restore].

(** The values a counting loop runs through: [n + 1] of them from [v]. *)
Fixpoint steps (n : nat) (v step : number) : list number :=
  match n with
  | O => [v]
  | S n' => v :: steps n' (v + step) step
  end.

Definition isStroke (op : CanvasOp) : bool :=
  match op with stroke => true | _ => false end.

Definition isLineTo (op : CanvasOp) : bool :=
  match op with lineTo _ _ => true | _ => false end.

(** ** The same functions on binary64

    [number] is the IEEE 754 binary64 float of the platform, with its NaN,
    its infinities and its two zeros. *)

Module Binary64.

Import PrimFloat SpecFloat FloatOps.
Local Open Scope float_scope.
Local Set Warnings "-inexact-float".

Definition number := float.

(** [Math.max] and [Math.min] of two numbers: NaN when either is NaN, and
    -0 counts as smaller than +0. *)
Definition Math_max (u v : number) : number :=
  if is_nan u || is_nan v then nan
  else if u =? v then (if get_sign u then v else u)
  else if u <? v then v else u.

Definition Math_min (u v : number) : number :=
  if is_nan u || is_nan v then nan
  else if v =? u then (if get_sign v then v else u)
  else if v <? u then v else u.

(** linearAlgebra.ts: [Math.min(max, Math.max(min, value))]. *)
Definition clamp (value min max : number) : number :=
  Math_min max (Math_max min value).


(** App.tsx: the two fields of the state that the updates of t read and
    write; the spread [...prev] copies the others. *)
Record AppState := mkAppState { t : number; isPlaying : bool }.

Definition handlePlayPause (prev : AppState) : AppState :=
  {| t := t prev; isPlaying := negb (isPlaying prev) |}.

Definition handleTChange (value : number) (prev : AppState) : AppState :=
  {| t := clamp value 0 1; isPlaying := false |}.

Definition speed : number := 0.0004.

(** The updater of [handleAnimationFrame]: the new state and the new
    [directionRef.current]. *)
Definition handleAnimationFrame (delta : number) (prev : AppState)
                                (directionRef : number)
  : AppState * number :=
  if negb (isPlaying prev) then (prev, directionRef)
  else
    let nextT := t prev + delta * speed * directionRef in
    if 1 <=? nextT then
      ({| t := 1; isPlaying := isPlaying prev |}, -1)
    else if nextT <=? 0 then
      ({| t := 0; isPlaying := isPlaying prev |}, 1)
    else
      ({| t := nextT; isPlaying := isPlaying prev |}, directionRef).

(** *** Number.prototype.toFixed (ECMA-262, 21.1.3.3) *)

(** [ToIntegerOrInfinity]: NaN gives 0, a finite number is truncated
    towards zero; [None] is an infinity. *)
Definition ToIntegerOrInfinity (x : number) : option Z :=
  match Prim2SF x with
  | S754_nan => Some 0%Z
  | S754_zero _ => Some 0%Z
  | S754_infinity _ => None
  | S754_finite s m e =>
      let magnitude :=
        if (0 <=? e)%Z then (Zpos m * 2 ^ e)%Z else (Zpos m / 2 ^ (- e))%Z in
      Some (if s then (- magnitude)%Z else magnitude)
  end.

(** The decimal digits of a non-negative integer. *)
Definition digits (n : Z) : string :=
  DecimalString.NilZero.string_of_uint (N.to_uint (Z.to_N n)).

Fixpoint zeros (n : nat) : string :=
  match n with O => EmptyString | S n' => String "0"%char (zeros n') end.

(** The integer n for which n / 10^f - m * 2^e is as close to zero as
    possible, the larger one when there are two. *)
Definition scaled (m : positive) (e f : Z) : Z :=
  if (0 <=? e)%Z then (Zpos m * 2 ^ e * 10 ^ f)%Z
  else ((2 * (Zpos m * 10 ^ f) + 2 ^ (- e)) / 2 ^ (1 - e))%Z.

(** The digits of n with a decimal point before the last f of them, padded
    with zeros on the left up to f + 1 digits. *)
Definition fixedText (n f : Z) : string :=
  let m := digits n in
  if (f =? 0)%Z then m
  else
    let k := String.length m in
    let m := if (Z.of_nat k <=? f)%Z
             then (zeros (Z.to_nat (f + 1) - k) ++ m)%string else m in
    let k := String.length m in
    let a := String.substring 0 (k - Z.to_nat f) m in
    let b := String.substring (k - Z.to_nat f) (Z.to_nat f) m in
    (a ++ "." ++ b)%string.

(** The binary64 value nearest to an integer, ties to even. *)
Definition round53 (V : Z) : Z :=
  let L := (Z.log2 V + 1)%Z in
  if (L <=? 53)%Z then V
  else
    let sh := (L - 53)%Z in
    let q := (V / 2 ^ sh)%Z in
    let r := (V mod 2 ^ sh)%Z in
    let half := (2 ^ (sh - 1))%Z in
    let q' := if (half <? r)%Z || ((r =? half)%Z && Z.odd q)
              then (q + 1)%Z else q in
    (q' * 2 ^ sh)%Z.

Fixpoint stripZeros (fuel : nat) (s : Z) : Z :=
  match fuel with
  | O => s
  | S fuel' => if (s mod 10 =? 0)%Z then stripZeros fuel' (s / 10)%Z else s
  end.

Definition decimalLength (n : Z) : Z := Z.of_nat (String.length (digits n)).

(** [Number::toString] looks for the fewest digits k and the integer s of k
    digits such that s * 10^(n - k) is the number; among the values of s
    the nearest is taken.  N is the number, an integer of D digits; the
    result is s and the power of ten that multiplies it. *)
Fixpoint shortest (ks : list Z) (N D : Z) : Z * Z :=
  match ks with
  | [] => (N, 0%Z)
  | k :: ks' =>
      let P := (10 ^ (D - k))%Z in
      let s0 := (N / P)%Z in
      let s1 := (s0 + 1)%Z in
      let ok0 := (round53 (s0 * P) =? N)%Z && (0 <? s0)%Z in
      let ok1 := (round53 (s1 * P) =? N)%Z in
      let d0 := (N - s0 * P)%Z in
      let d1 := (s1 * P - N)%Z in
      if ok0 && ok1 then
        (if (d0 <? d1)%Z || ((d0 =? d1)%Z && Z.even s0) then (s0, (D - k)%Z)
         else (s1, (D - k)%Z))
      else if ok0 then (s0, (D - k)%Z)
      else if ok1 then (s1, (D - k)%Z)
      else shortest ks' N D
  end.

(** [Number::toString] of an integer of 22 digits or more: the exponent
    form, [d.ddde+n]. *)
Definition exponential (N : Z) : string :=
  let D := decimalLength N in
  let '(s, q) :=
    shortest [1; 2; 3; 4; 5; 6; 7; 8; 9; 10; 11; 12; 13; 14; 15; 16; 17]%Z
             N D in
  let n := (decimalLength s + q)%Z in
  let ds := digits (stripZeros 400 s) in
  let e := digits (n - 1) in
  match ds with
  | String d EmptyString => (ds ++ "e+" ++ e)%string
  | String d rest => (String d (String "."%char rest) ++ "e+" ++ e)%string
  | EmptyString => ds
  end.

(** [x.toFixed(fractionDigits)].  A digit count outside 0..100 throws a
    [RangeError]; a number of magnitude 10^21 or more is printed by
    [Number::toString]. *)
Definition toFixed (x fractionDigits : number) : Completion string :=
  match ToIntegerOrInfinity fractionDigits with
  | None => Throw "RangeError"
  | Some f =>
      if (f <? 0)%Z || (100 <? f)%Z then Throw "RangeError"
      else
        match Prim2SF x with
        | S754_nan => Normal "NaN"%string
        | S754_infinity s =>
            Normal (if s then "-Infinity" else "Infinity")%string
        | S754_zero _ => Normal (fixedText 0 f)
        | S754_finite s m e =>
            let sign := (if s then "-" else "")%string in
            if (0 <=? e)%Z && (10 ^ 21 <=? Zpos m * 2 ^ e)%Z
            then Normal (sign ++ exponential (Zpos m * 2 ^ e))%string
            else Normal (sign ++ fixedText (scaled m e f) f)%string
        end
  end.

End Binary64.

(** * Properties *)

(** ** Arithmetic helpers *)

Lemma clamp_bounds (value lo hi : number) :
  lo <= hi -> lo <= clamp value lo hi <= hi.
Proof.
  intros Hle. unfold clamp, Rmin, Rmax.
  destruct (Rle_dec lo value); destruct (Rle_dec hi _); lra.
Qed.

Lemma clamp_inside (value lo hi : number) :
  lo <= value <= hi -> clamp value lo hi = value.
Proof.
  intros [Hlo Hhi]. unfold clamp, Rmin, Rmax.
  destruct (Rle_dec lo value); destruct (Rle_dec hi _); lra.
Qed.

Lemma clamp_unit (value : number) : unit_interval (clamp value 0 1).
Proof. apply clamp_bounds; lra. Qed.

Lemma clamp_zoom (value : number) :
  zoom_in_bounds (clamp value MIN_ZOOM MAX_ZOOM).
Proof. apply clamp_bounds; unfold MIN_ZOOM, MAX_ZOOM; lra. Qed.

Lemma speed_pos : 0 < speed.
Proof. unfold speed; lra. Qed.

(** ** The linear-algebra utilities *)

(** C1: for every matrix {a,b,c,d} and every vector (x,y),
    [multiplyMatrixVector] returns exactly (a*x + b*y, c*x + d*y); the
    function is defined on every input, there is no failure case in its
    result type. *)
Theorem multiplyMatrixVector_spec :
  forall (a b c d x y : number),
    multiplyMatrixVector (mkMatrix a b c d) (mkVector2 x y)
    = mkVector2 (a * x + b * y) (c * x + d * y).
Proof. intros; reflexivity. Qed.

(** The two scenarios of the preset table: the axis swap sends (2, 3) to
    (3, 2) and has determinant -1; the projection on the x axis sends (5, 7)
    to (5, 0) and has determinant 0. *)
Example axis_swap_scenario :
  multiplyMatrixVector (mkMatrix 0 1 1 0) (mkVector2 2 3) = mkVector2 3 2
  /\ determinant (mkMatrix 0 1 1 0) = -1.
Proof. split; simpl; [f_equal |]; lra. Qed.

Example projection_scenario :
  multiplyMatrixVector (mkMatrix 1 0 0 0) (mkVector2 5 7) = mkVector2 5 0
  /\ determinant (mkMatrix 1 0 0 0) = 0.
Proof. split; simpl; [f_equal |]; lra. Qed.


(** ** The animation step *)

(** The three cases of the updater, one equation each. *)
Lemma handleAnimationFrame_paused (delta : number) (s : AppStore) :
  isPlaying (state s) = false -> handleAnimationFrame delta s = s.
Proof. intros H; unfold handleAnimationFrame; rewrite H; reflexivity. Qed.

Lemma handleAnimationFrame_cases (delta : number) (s : AppStore) :
  isPlaying (state s) = true ->
  let nextT := t (state s) + delta * speed * directionRef s in
  (1 <= nextT /\
   handleAnimationFrame delta s
   = {| state := with_t (state s) 1; directionRef := -1 |})
  \/ (nextT <= 0 /\
      handleAnimationFrame delta s
      = {| state := with_t (state s) 0; directionRef := 1 |})
  \/ (0 < nextT < 1 /\
      handleAnimationFrame delta s
      = {| state := with_t (state s) nextT; directionRef := directionRef s |}).
Proof.
  intros Hplay nextT. unfold handleAnimationFrame. rewrite Hplay. simpl.
  fold nextT.
  destruct (Rge_dec nextT 1) as [Hge | Hlt].
  - left. split; [lra | reflexivity].
  - destruct (Rle_dec nextT 0) as [Hle | Hgt].
    + right; left. split; [lra | reflexivity].
    + right; right. split; [lra | reflexivity].
Qed.

Lemma handleAnimationFrame_unit (delta : number) (s : AppStore) :
  unit_interval (t (state s)) ->
  unit_interval (t (state (handleAnimationFrame delta s))).
Proof.
  intros Ht. destruct (isPlaying (state s)) eqn:Hplay.
  - destruct (handleAnimationFrame_cases delta s Hplay)
      as [[H1 ->] | [[H0 ->] | [Hin ->]]];
      unfold unit_interval; simpl; lra.
  - rewrite handleAnimationFrame_paused by assumption. exact Ht.
Qed.

Lemma handleAnimationFrame_direction (delta : number) (s : AppStore) :
  directionRef s = 1 \/ directionRef s = -1 ->
  directionRef (handleAnimationFrame delta s) = 1
  \/ directionRef (handleAnimationFrame delta s) = -1.
Proof.
  intros Hd. destruct (isPlaying (state s)) eqn:Hplay.
  - destruct (handleAnimationFrame_cases delta s Hplay)
      as [[H1 ->] | [[H0 ->] | [Hin ->]]]; simpl; auto.
  - rewrite handleAnimationFrame_paused by assumption. exact Hd.
Qed.

(** The fields that the animation step does not write. *)
Lemma handleAnimationFrame_frame (delta : number) (s : AppStore) :
  let s' := handleAnimationFrame delta s in
  pinnedVectors (state s') = pinnedVectors (state s)
  /\ camera (state s') = camera (state s)
  /\ isPlaying (state s') = isPlaying (state s).
Proof.
  destruct (isPlaying (state s)) eqn:Hplay; cbv zeta.
  - destruct (handleAnimationFrame_cases delta s Hplay)
      as [[H1 ->] | [[H0 ->] | [Hin ->]]]; simpl; auto.
  - rewrite handleAnimationFrame_paused by assumption. auto.
Qed.

(** C2: one animation tick (a frame delivered while playing) advances t by
    delta * 0.0004 * direction; a result above 1 is clamped to 1 and the
    direction becomes -1, a result below 0 is clamped to 0 and the direction
    becomes +1; the direction changes only when the tick ends on one of the
    two boundaries; and the sweep turns back after a boundary: the tick that
    follows the arrival at 1 (at 0) moves t below 1 (above 0). *)
Theorem animation_tick_ping_pong :
  forall (s : AppStore) (delta : number),
    isPlaying (state s) = true ->
    let nextT := t (state s) + delta * 0.0004 * directionRef s in
    let s' := handleAnimationFrame delta s in
    (0 <= nextT <= 1 -> t (state s') = nextT)
    /\ (1 < nextT -> t (state s') = 1 /\ directionRef s' = -1)
    /\ (nextT < 0 -> t (state s') = 0 /\ directionRef s' = 1)
    /\ (directionRef s' <> directionRef s ->
        (1 <= nextT /\ t (state s') = 1 /\ directionRef s' = -1)
        \/ (nextT <= 0 /\ t (state s') = 0 /\ directionRef s' = 1))
    /\ (forall delta', 0 < delta' ->
        (1 <= nextT -> t (state (handleAnimationFrame delta' s')) < 1)
        /\ (nextT <= 0 -> 0 < t (state (handleAnimationFrame delta' s')))).
Proof.
  intros s delta Hplay nextT s'.
  assert (Hnext : nextT = t (state s) + delta * speed * directionRef s)
    by reflexivity.
  pose proof (handleAnimationFrame_cases delta s Hplay) as Hcases.
  cbv zeta in Hcases. rewrite <- Hnext in Hcases. fold s' in Hcases.
  pose proof speed_pos as Hspeed.
  destruct Hcases as [[H1 Hs'] | [[H0 Hs'] | [Hin Hs']]]; rewrite Hs';
    simpl; repeat split; intros; try lra; auto.
  - (* the tick after the arrival at 1 *)
    pose proof (handleAnimationFrame_cases delta'
                  {| state := with_t (state s) 1; directionRef := -1 |} Hplay)
      as Hnext'.
    simpl in Hnext'.
    assert (0 < delta' * speed) by (apply Rmult_lt_0_compat; lra).
    destruct Hnext' as [[Hc ->] | [[Hc ->] | [Hc ->]]]; simpl; lra.
  - (* the tick after the arrival at 0 *)
    pose proof (handleAnimationFrame_cases delta'
                  {| state := with_t (state s) 0; directionRef := 1 |} Hplay)
      as Hnext'.
    simpl in Hnext'.
    assert (0 < delta' * speed) by (apply Rmult_lt_0_compat; lra).
    destruct Hnext' as [[Hc ->] | [[Hc ->] | [Hc ->]]]; simpl; lra.
Qed.

Lemma animation_tick_ping_pong_witness :
  isPlaying (state playing_store) = true
  /\ t (state (handleAnimationFrame 1000 playing_store)) = 0.9.
Proof.
  split; [reflexivity |].
  destruct (animation_tick_ping_pong playing_store 1000 eq_refl) as [Hin _].
  assert (Ht : t (state playing_store) = 0.5).
  { simpl. apply clamp_inside; lra. }
  simpl directionRef in Hin. rewrite Ht in Hin.
  rewrite Hin; lra.
Defined.

(** ** The pinned-vector list *)

Lemma slice_last_length {A : Type} (n : nat) (l : list A) :
  (List.length (slice_last n l) <= n)%nat.
Proof. unfold slice_last. rewrite List.length_skipn. lia. Qed.

Lemma slice_last_short {A : Type} (n : nat) (l : list A) :
  (List.length l <= n)%nat -> slice_last n l = l.
Proof.
  intros Hle. unfold slice_last.
  replace (List.length l - n)%nat with 0%nat by lia. reflexivity.
Qed.

Lemma slice_last_evict {A : Type} (n : nat) (l : list A) :
  List.length l = S n -> slice_last n l = List.tl l.
Proof.
  intros Hlen. unfold slice_last.
  replace (List.length l - n)%nat with 1%nat by lia.
  destruct l; reflexivity.
Qed.

Lemma handlePinVector_pins (captured : Vector2) (s : AppStore) :
  pinnedVectors (state (handlePinVector captured s))
  = slice_last 6 (pinnedVectors (state s) ++ [newPin (state s) captured]).
Proof. reflexivity. Qed.

(** ** Invariants of the running application *)

Ltac split_invariant :=
  unfold app_invariant, unit_interval, zoom_in_bounds in *; simpl;
  repeat match goal with
         | H : _ /\ _ |- _ => destruct H
         end;
  repeat split; auto.

Lemma handleAnimationFrame_invariant (delta : number) (s : AppStore) :
  app_invariant s -> app_invariant (handleAnimationFrame delta s).
Proof.
  intros (Ht & Hpins & Hdir & Hzoom).
  destruct (handleAnimationFrame_frame delta s) as (Epins & Ecam & _).
  unfold app_invariant. rewrite Epins, Ecam.
  refine (conj _ (conj Hpins (conj _ Hzoom))).
  - apply handleAnimationFrame_unit; assumption.
  - apply handleAnimationFrame_direction; assumption.
Qed.

Lemma handleProbeChange_invariant (v : Vector2) (s : AppStore) :
  app_invariant s -> app_invariant (handleProbeChange v s).
Proof. intros H; split_invariant. Qed.

Lemma handleCameraChange_invariant (cam : CameraState) (s : AppStore) :
  zoom_in_bounds (zoom cam) ->
  app_invariant s -> app_invariant (handleCameraChange cam s).
Proof. intros Hz H; split_invariant; apply Hz. Qed.

Lemma handlePinVector_invariant (captured : Vector2) (s : AppStore) :
  app_invariant s -> app_invariant (handlePinVector captured s).
Proof. intros H; split_invariant. apply slice_last_length. Qed.

Lemma handleTChange_invariant (value : number) (s : AppStore) :
  app_invariant s -> app_invariant (handleTChange value s).
Proof. intros H; split_invariant; apply clamp_unit. Qed.

Lemma handleResetCamera_invariant (s : AppStore) :
  app_invariant s -> app_invariant (handleResetCamera s).
Proof.
  intros H; split_invariant; unfold MIN_ZOOM, MAX_ZOOM; lra.
Qed.

Lemma dispatchAll_invariant (calls : list Callback) (s : AppStore) :
  calls_in_bounds calls -> app_invariant s ->
  app_invariant (dispatchAll calls s).
Proof.
  unfold dispatchAll. intros Hcalls; revert s.
  induction Hcalls as [| call calls Hcall _ IH]; intros s Hs; simpl.
  - exact Hs.
  - apply IH. destruct call as [v | cam]; simpl.
    + apply handleProbeChange_invariant; exact Hs.
    + apply handleCameraChange_invariant; assumption.
Qed.

Lemma handlePointerMove_calls canvas cam event refs :
  zoom_in_bounds (zoom cam) ->
  calls_in_bounds (snd (handlePointerMove canvas cam event refs)).
Proof.
  intros Hz. unfold handlePointerMove, calls_in_bounds.
  destruct canvas as [rect |]; [| constructor].
  destruct (dragModeRef refs); simpl.
  - constructor.
  - constructor; [exact I | constructor].
  - constructor; [exact Hz | constructor].
Qed.

Lemma endPointerInteraction_calls canvas cam event refs :
  calls_in_bounds (snd (endPointerInteraction canvas cam event refs)).
Proof.
  unfold endPointerInteraction, calls_in_bounds.
  destruct canvas as [rect |]; [| constructor].
  destruct (dragModeRef refs), (pointerMovedRef refs); simpl;
    try (constructor; [exact I |]); constructor.
Qed.

Lemma handleWheel_calls canvas cam event :
  calls_in_bounds (handleWheel canvas cam event).
Proof.
  unfold handleWheel, calls_in_bounds.
  destruct canvas as [rect |]; [| constructor].
  constructor; [| constructor]. simpl. apply clamp_zoom.
Qed.

Lemma INITIAL_STORE_invariant : app_invariant INITIAL_STORE.
Proof.
  unfold app_invariant, unit_interval, zoom_in_bounds, MIN_ZOOM, MAX_ZOOM.
  simpl. repeat split; try lra; auto. lia.
Qed.

Lemma handle_invariant (ev : Event) (sys : System) :
  app_invariant (app sys) -> app_invariant (app (handle ev sys)).
Proof.
  intros Hinv.
  assert (Hzoom : zoom_in_bounds (zoom (camera (state (app sys)))))
    by apply Hinv.
  destruct ev; simpl.
  - split_invariant.
  - split_invariant.
  - split_invariant.
  - apply handleTChange_invariant; exact Hinv.
  - apply handleProbeChange_invariant; exact Hinv.
  - apply handlePinVector_invariant; exact Hinv.
  - split_invariant.
  - apply handleResetCamera_invariant; exact Hinv.
  - destruct (isPlaying (state (app sys))); [| exact Hinv].
    destruct (previousRef sys); simpl; [| exact Hinv].
    apply handleAnimationFrame_invariant; exact Hinv.
  - exact Hinv.
  - apply dispatchAll_invariant;
      [apply handlePointerMove_calls; exact Hzoom | exact Hinv].
  - apply dispatchAll_invariant;
      [apply endPointerInteraction_calls | exact Hinv].
  - apply dispatchAll_invariant;
      [apply endPointerInteraction_calls | exact Hinv].
  - apply dispatchAll_invariant; [apply handleWheel_calls | exact Hinv].
Qed.

Lemma step_invariant (ev : Event) (sys : System) :
  app_invariant (app sys) -> app_invariant (app (step ev sys)).
Proof.
  intros Hinv. unfold step.
  destruct (isPlaying (state (app (handle ev sys)))); simpl;
    apply handle_invariant; exact Hinv.
Qed.

Lemma reachable_invariant (sys : System) :
  reachable sys -> app_invariant (app sys).
Proof.
  induction 1 as [| ev sys _ IH].
  - exact INITIAL_STORE_invariant.
  - apply step_invariant; exact IH.
Qed.

(** ** The interpolation parameter *)

(** Over the reals, where every slider value and every elapsed time is a
    finite number: the t-update stores a value in [0, 1], from a t in [0, 1]
    the animation step yields a t in [0, 1], and t is in [0, 1] in every
    state the application reaches.  (The value NaN, which the reals do not
    have, is the subject of [Binary64.clamp] below.) *)
Theorem t_stays_in_unit_interval :
  (forall (value : number) (s : AppStore),
      0 <= t (state (handleTChange value s)) <= 1)
  /\ (forall (delta : number) (s : AppStore),
         0 <= t (state s) <= 1 ->
         0 <= t (state (handleAnimationFrame delta s)) <= 1)
  /\ (forall sys : System,
         reachable sys -> 0 <= t (state (app sys)) <= 1).
Proof.
  split; [| split].
  - intros value s. simpl. apply clamp_unit.
  - intros delta s Ht. apply handleAnimationFrame_unit. exact Ht.
  - intros sys Hreach. apply (reachable_invariant sys Hreach).
Qed.

(** C10: the manual t-update also clears [isPlaying], so that moving the
    slider stops a running animation, and leaves matrix, probe vector,
    pinned vectors, camera, grid mode and preset id (and the direction ref)
    as they were. *)
Theorem handleTChange_stops_animation :
  forall (value : number) (s : AppStore),
    let s' := handleTChange value s in
    isPlaying (state s') = false
    /\ t (state s') = clamp value 0 1
    /\ matrix (state s') = matrix (state s)
    /\ probeVector (state s') = probeVector (state s)
    /\ pinnedVectors (state s') = pinnedVectors (state s)
    /\ camera (state s') = camera (state s)
    /\ gridMode (state s') = gridMode (state s)
    /\ presetId (state s') = presetId (state s)
    /\ directionRef s' = directionRef s.
Proof. intros value s. cbv zeta. repeat split. Qed.

(** C4: the pinned-vector list has at most 6 entries in every state the
    application reaches, and pinning keeps it so: the new entry is the
    current probe vector with its image under the matrix, it is appended at
    the end, and when the list holds 6 entries already its first entry is
    dropped, the other five keeping their order before the new one. *)
Theorem pinned_vectors_capped :
  (forall sys : System,
      reachable sys ->
      (List.length (pinnedVectors (state (app sys))) <= 6)%nat)
  /\ (forall s : AppStore,
         let prev := state s in
         let pins := pinnedVectors prev in
         let pin := newPin prev (transformedProbe prev) in
         let pins' :=
           pinnedVectors (state (handlePinVector (transformedProbe prev) s)) in
         (pinned_vector pin = probeVector prev
          /\ Tx pin = x (multiplyMatrixVector (matrix prev) (probeVector prev))
          /\ Ty pin = y (multiplyMatrixVector (matrix prev) (probeVector prev)))
         /\ (List.length pins' <= 6)%nat
         /\ ((List.length pins < 6)%nat -> pins' = pins ++ [pin])
         /\ (List.length pins = 6%nat -> pins' = List.tl pins ++ [pin])).
Proof.
  split.
  - intros sys Hreach. apply (reachable_invariant sys Hreach).
  - intros s prev pins pin pins'.
    assert (Hpins' : pins' = slice_last 6 (pins ++ [pin])) by reflexivity.
    split; [| split; [| split]].
    + unfold pin, newPin, transformedProbe; simpl.
      destruct (probeVector prev); repeat split.
    + rewrite Hpins'. apply slice_last_length.
    + intros Hlt. rewrite Hpins'. apply slice_last_short.
      rewrite List.length_app; simpl; lia.
    + intros Hfull. rewrite Hpins'.
      rewrite slice_last_evict by (rewrite List.length_app; simpl; lia).
      destruct pins; [discriminate | reflexivity].
Qed.

Lemma pinned_vectors_capped_witness :
  (reachable (step PinVector INITIAL_SYSTEM)
   /\ (List.length
         (pinnedVectors (state (app (step PinVector INITIAL_SYSTEM)))) <= 6)%nat)
  /\ ((List.length (pinnedVectors (state INITIAL_STORE)) < 6)%nat
      /\ List.length
           (pinnedVectors
              (state (handlePinVector (transformedProbe (state INITIAL_STORE))
                                      INITIAL_STORE))) = 1%nat)
  /\ (List.length (pinnedVectors (state full_store)) = 6%nat
      /\ pinnedVectors
           (state (handlePinVector (transformedProbe (state full_store))
                                   full_store))
         = List.tl (pinnedVectors (state full_store))
           ++ [newPin (state full_store) (transformedProbe (state full_store))]).
Proof.
  destruct pinned_vectors_capped as (Hreach & Hpin).
  split; [| split].
  - assert (Hr : reachable (step PinVector INITIAL_SYSTEM))
      by (apply reachable_step, reachable_initial).
    split; [exact Hr | apply (Hreach _ Hr)].
  - assert (Hlt : (List.length (pinnedVectors (state INITIAL_STORE)) < 6)%nat)
      by (simpl; lia).
    split; [exact Hlt |].
    destruct (Hpin INITIAL_STORE) as (_ & _ & Happend & _).
    rewrite (Happend Hlt). reflexivity.
  - assert (Hfull : List.length (pinnedVectors (state full_store)) = 6%nat)
      by reflexivity.
    split; [exact Hfull |].
    destruct (Hpin full_store) as (_ & _ & _ & Hevict).
    exact (Hevict Hfull).
Defined.

(** ** The camera model *)

Lemma zoom_in_bounds_nonzero (z : number) : zoom_in_bounds z -> z <> 0.
Proof. unfold zoom_in_bounds, MIN_ZOOM. lra. Qed.

Lemma screenToWorld_worldToScreen (cam : CameraState) (p : Vector2)
                                  (w h : number) :
  zoom cam <> 0 -> screenToWorld cam (worldToScreen cam p w h) w h = p.
Proof.
  intros Hz. destruct p as [px py].
  unfold screenToWorld, worldToScreen; simpl.
  f_equal; field; exact Hz.
Qed.

Lemma worldToScreen_screenToWorld (cam : CameraState) (q : ScreenPoint)
                                  (w h : number) :
  zoom cam <> 0 -> worldToScreen cam (screenToWorld cam q w h) w h = q.
Proof.
  intros Hz. destruct q as [qx qy].
  unfold screenToWorld, worldToScreen; simpl.
  f_equal; field; exact Hz.
Qed.

(** C5: for every camera with its zoom in bounds, every viewport size and
    every world point p, [worldToScreen] is
    ((p.x - offsetX) * zoom + width/2, height/2 - (p.y - offsetY) * zoom) and
    [screenToWorld] undoes it; [screenToWorld] is its inverse on both
    sides.  In real arithmetic the round trip is an equality. *)
Theorem camera_round_trip :
  forall (camera : CameraState) (width height : number) (p : Vector2),
    zoom_in_bounds (zoom camera) ->
    worldToScreen camera p width height
    = {| x := (x p - offsetX camera) * zoom camera + width / 2;
         y := height / 2 - (y p - offsetY camera) * zoom camera |}
    /\ screenToWorld camera (worldToScreen camera p width height) width height
       = p
    /\ (forall q : ScreenPoint,
           worldToScreen camera (screenToWorld camera q width height)
                         width height = q).
Proof.
  intros camera width height p Hz.
  apply zoom_in_bounds_nonzero in Hz.
  split; [reflexivity | split].
  - apply screenToWorld_worldToScreen; exact Hz.
  - intros q. apply worldToScreen_screenToWorld; exact Hz.
Qed.

Lemma camera_round_trip_witness :
  zoom_in_bounds (zoom INITIAL_CAMERA)
  /\ screenToWorld INITIAL_CAMERA
       (worldToScreen INITIAL_CAMERA {| x := 2; y := 3 |} 800 600) 800 600
     = {| x := 2; y := 3 |}.
Proof.
  assert (Hz : zoom_in_bounds (zoom INITIAL_CAMERA)).
  { unfold zoom_in_bounds, MIN_ZOOM, MAX_ZOOM; simpl; lra. }
  split; [exact Hz |].
  apply (camera_round_trip INITIAL_CAMERA 800 600 {| x := 2; y := 3 |} Hz).
Defined.

(** ** The wheel handler *)

(** The camera that [handleWheel] passes to [onCameraChange]. *)
Lemma handleWheel_camera (rect : DOMRect) (cam : CameraState)
                         (event : WheelEvent) :
  let pointer := eventPoint rect event in
  let newZoom :=
    clamp (zoom cam * exp (- deltaY event * 0.001)) MIN_ZOOM MAX_ZOOM in
  handleWheel (Some rect) cam event
  = [onCameraChange
       {| offsetX :=
            offsetX cam
            + (x (screenToWorld cam pointer (width rect) (height rect))
               - ((x pointer - width rect / 2) / newZoom + offsetX cam));
          offsetY :=
            offsetY cam
            + (y (screenToWorld cam pointer (width rect) (height rect))
               - ((- (y pointer - height rect / 2)) / newZoom + offsetY cam));
          zoom := newZoom |}].
Proof. reflexivity. Qed.

(** C6: the zoom that the wheel handler produces is the starting zoom times
    exp(-deltaY * 0.001), clamped, and lies in [20, 400] for every wheel
    delta; a wheel event never takes the zoom of the application's camera
    out of [20, 400]. *)
Theorem wheel_zoom_in_bounds :
  (forall (rect : DOMRect) (camera : CameraState) (event : WheelEvent),
      exists newCamera : CameraState,
        handleWheel (Some rect) camera event = [onCameraChange newCamera]
        /\ zoom newCamera
           = clamp (zoom camera * exp (- deltaY event * 0.001)) 20 400
        /\ 20 <= zoom newCamera <= 400)
  /\ (forall (canvas : option DOMRect) (event : WheelEvent) (sys : System),
         20 <= zoom (camera (state (app sys))) <= 400 ->
         20 <= zoom (camera (state (app (step (Wheel canvas event) sys))))
            <= 400).
Proof.
  split.
  - intros rect camera event. eexists. split; [apply handleWheel_camera |].
    simpl. split; [reflexivity | apply clamp_zoom].
  - intros canvas event sys Hz.
    assert (Hstep : camera (state (app (step (Wheel canvas event) sys)))
                    = camera (state (app (handle (Wheel canvas event) sys)))).
    { unfold step. destruct (isPlaying _); reflexivity. }
    rewrite Hstep. destruct canvas as [rect |]; simpl.
    + apply clamp_zoom.
    + exact Hz.
Qed.

Lemma wheel_zoom_in_bounds_witness :
  20 <= zoom (camera (state (app INITIAL_SYSTEM))) <= 400
  /\ 20 <= zoom (camera (state (app (step
              (Wheel (Some sample_rect)
                     (mkWheelEvent (mkMouseEvent 100 50) (-100000)))
              INITIAL_SYSTEM)))) <= 400.
Proof.
  assert (Hz : 20 <= zoom (camera (state (app INITIAL_SYSTEM))) <= 400)
    by (simpl; lra).
  split; [exact Hz |].
  apply (proj2 wheel_zoom_in_bounds (Some sample_rect) _ INITIAL_SYSTEM Hz).
Defined.

(** C7: zoom to cursor.  For every camera with its zoom in bounds, every
    viewport, cursor position and wheel delta, the camera that the wheel
    handler produces maps the cursor's screen position to the world point
    that the camera before the event mapped it to, and shows that world
    point at the cursor's position. *)
Theorem wheel_zoom_to_cursor :
  forall (rect : DOMRect) (camera : CameraState) (event : WheelEvent),
    zoom_in_bounds (zoom camera) ->
    exists newCamera : CameraState,
      handleWheel (Some rect) camera event = [onCameraChange newCamera]
      /\ let pointer := eventPoint rect event in
         let before :=
           screenToWorld camera pointer (width rect) (height rect) in
         screenToWorld newCamera pointer (width rect) (height rect) = before
         /\ worldToScreen newCamera before (width rect) (height rect)
            = pointer.
Proof.
  intros rect camera event Hz.
  apply zoom_in_bounds_nonzero in Hz.
  pose proof (zoom_in_bounds_nonzero _
                (clamp_zoom (zoom camera * exp (- deltaY event * 0.001))))
    as Hnew.
  eexists. split; [apply handleWheel_camera |].
  set (newZoom := clamp _ MIN_ZOOM MAX_ZOOM) in *.
  unfold screenToWorld, worldToScreen, eventPoint; simpl.
  split; f_equal; field; auto.
Qed.

Lemma wheel_zoom_to_cursor_witness :
  zoom_in_bounds (zoom INITIAL_CAMERA)
  /\ exists newCamera : CameraState,
       handleWheel (Some sample_rect) INITIAL_CAMERA
                   (mkWheelEvent (mkMouseEvent 100 50) 120)
       = [onCameraChange newCamera]
       /\ screenToWorld newCamera {| x := 100 - 0; y := 50 - 0 |} 800 600
          = screenToWorld INITIAL_CAMERA {| x := 100 - 0; y := 50 - 0 |}
                          800 600.
Proof.
  assert (Hz : zoom_in_bounds (zoom INITIAL_CAMERA)).
  { unfold zoom_in_bounds, MIN_ZOOM, MAX_ZOOM; simpl; lra. }
  split; [exact Hz |].
  destruct (wheel_zoom_to_cursor sample_rect INITIAL_CAMERA
              (mkWheelEvent (mkMouseEvent 100 50) 120) Hz)
    as (newCamera & Hcall & Hfix & _).
  exists newCamera. split; [exact Hcall | exact Hfix].
Defined.

(** ** Panning *)

(** C8: on a pointer move in the panning state, with (dx, dy) the pixel
    delta since the last pointer position, the handler asks for the camera
    whose offset is (offsetX - dx / zoom, offsetY + dy / zoom) and whose zoom
    is unchanged, sets the moved flag, stays in the panning state and
    records the position; under the new camera the pointer is over the
    world point that was under the last position, so the content follows
    the drag. *)
Theorem pan_move_shifts_camera :
  forall (rect : DOMRect) (camera : CameraState) (event : MouseEvent)
         (refs : Refs),
    dragModeRef refs = pan ->
    let point := eventPoint rect event in
    let dx := x point - x (lastPointerRef refs) in
    let dy := y point - y (lastPointerRef refs) in
    let newCamera :=
      {| offsetX := offsetX camera - dx / zoom camera;
         offsetY := offsetY camera + dy / zoom camera;
         zoom := zoom camera |} in
    let result := handlePointerMove (Some rect) camera event refs in
    snd result = [onCameraChange newCamera]
    /\ pointerMovedRef (fst result) = true
    /\ dragModeRef (fst result) = pan
    /\ lastPointerRef (fst result) = point
    /\ (zoom camera <> 0 ->
        screenToWorld newCamera point (width rect) (height rect)
        = screenToWorld camera (lastPointerRef refs)
                        (width rect) (height rect)).
Proof.
  intros rect camera event refs Hpan point dx dy newCamera result.
  subst result. unfold handlePointerMove. rewrite Hpan. simpl.
  repeat split.
  intros Hz. unfold screenToWorld, newCamera, dx, dy; simpl.
  f_equal; field; exact Hz.
Qed.

Lemma pan_move_shifts_camera_witness :
  dragModeRef (mkRefs pan false {| x := 100; y := 100 |}) = pan
  /\ snd (handlePointerMove (Some sample_rect) INITIAL_CAMERA
            (mkMouseEvent 180 60) (mkRefs pan false {| x := 100; y := 100 |}))
     = [onCameraChange
          {| offsetX := 0 - (180 - 0 - 100) / 80;
             offsetY := 0 + (60 - 0 - 100) / 80;
             zoom := 80 |}].
Proof.
  split; [reflexivity |].
  apply (pan_move_shifts_camera sample_rect INITIAL_CAMERA
           (mkMouseEvent 180 60) (mkRefs pan false {| x := 100; y := 100 |})
           eq_refl).
Defined.

(** ** Number formatting *)

(** Whatever the platform's [toFixed] is: for a finite value
    [formatNumber] is [value.toFixed(precision)] (with precision 2 when the
    argument is left out), and for NaN and the two infinities it returns
    the sentinel literal without calling [toFixed]. *)
Theorem formatNumber_spec :
  forall (toFixed : PrimFloat.float -> PrimFloat.float -> Completion string)
         (value : PrimFloat.float) (precision : option PrimFloat.float),
    formatNumber toFixed value precision
    = (if PrimFloat.is_finite value
       then toFixed value
              (match precision with Some p => p | None => PrimFloat.two end)
       else Normal SENTINEL)
    /\ formatNumber toFixed PrimFloat.nan precision = Normal SENTINEL
    /\ formatNumber toFixed PrimFloat.infinity precision = Normal SENTINEL
    /\ formatNumber toFixed PrimFloat.neg_infinity precision = Normal SENTINEL.
Proof.
  intros toFixed value precision.
  split; [| repeat split].
  unfold formatNumber, PrimFloat.is_finite.
  destruct (PrimFloat.is_nan value), (PrimFloat.is_infinity value);
    reflexivity.
Qed.

(** * Further properties of the sources *)

(** ** linearAlgebra.ts *)

(** The identity matrix leaves every vector unchanged, and a matrix sends
    the basis vectors (1, 0) and (0, 1) to its columns (a, c) and (b, d). *)
Theorem multiplyMatrixVector_identity_columns :
  forall (m : Matrix) (v : Vector2),
    multiplyMatrixVector identityMatrix v = v
    /\ multiplyMatrixVector m (mkVector2 1 0) = mkVector2 (a m) (c m)
    /\ multiplyMatrixVector m (mkVector2 0 1) = mkVector2 (b m) (d m).
Proof.
  intros [ma mb mc md] [vx vy]. unfold identityMatrix; simpl.
  repeat split; f_equal; lra.
Qed.


(** [interpolatePoint] at t is the image under the matrix
    (1 - t) * identity + t * matrix: the blend is itself a linear map. *)
Theorem interpolatePoint_blend :
  forall (p : Vector2) (m : Matrix) (t : number),
    interpolatePoint p m t
    = multiplyMatrixVector
        (mkMatrix ((1 - t) * 1 + t * a m) ((1 - t) * 0 + t * b m)
                  ((1 - t) * 0 + t * c m) ((1 - t) * 1 + t * d m)) p.
Proof.
  intros [px py] [ma mb mc md] t. unfold interpolatePoint; simpl.
  f_equal; ring.
Qed.

(** X3: [clamp] with ordered bounds returns the lower bound below it, the
    value itself inside, and the upper bound above; with the bounds in the
    wrong order it returns [max] whatever the value. *)
Theorem clamp_cases :
  forall (value lo hi : number),
    (lo <= hi ->
     (value < lo -> clamp value lo hi = lo)
     /\ (lo <= value <= hi -> clamp value lo hi = value)
     /\ (hi < value -> clamp value lo hi = hi))
    /\ (hi < lo -> clamp value lo hi = hi).
Proof.
  intros value lo hi. unfold clamp, Rmin, Rmax.
  destruct (Rle_dec lo value); destruct (Rle_dec hi _);
    repeat split; intros; lra.
Qed.

Lemma clamp_cases_witness :
  (0 <= 1 /\ -3 < 0 /\ clamp (-3) 0 1 = 0)
  /\ (0 <= 1 /\ 1 < 7 /\ clamp 7 0 1 = 1)
  /\ (0 < 1 /\ clamp 0.5 1 0 = 0).
Proof.
  assert (H01 : 0 <= 1) by lra.
  assert (Hlow : -3 < 0) by lra.
  assert (Hhigh : 1 < 7) by lra.
  assert (Hinv : 0 < 1) by lra.
  split; [| split].
  - split; [exact H01 | split; [exact Hlow |]].
    exact (proj1 (proj1 (clamp_cases (-3) 0 1) H01) Hlow).
  - split; [exact H01 | split; [exact Hhigh |]].
    exact (proj2 (proj2 (proj1 (clamp_cases 7 0 1) H01)) Hhigh).
  - split; [exact Hinv |].
    exact (proj2 (clamp_cases 0.5 1 0) Hinv).
Defined.

Lemma clamp_monotone (u v lo hi : number) :
  u <= v -> clamp u lo hi <= clamp v lo hi.
Proof.
  intros Huv. unfold clamp, Rmin, Rmax.
  destruct (Rle_dec lo u), (Rle_dec lo v);
    repeat (match goal with
            | |- context [Rle_dec ?p ?q] => destruct (Rle_dec p q)
            end); lra.
Qed.

(** X4: clamping twice is clamping once, and [clamp] is monotone in its
    value, for any bounds. *)
Theorem clamp_idempotent_monotone :
  forall (u v lo hi : number),
    u <= v ->
    clamp (clamp v lo hi) lo hi = clamp v lo hi
    /\ clamp u lo hi <= clamp v lo hi.
Proof.
  intros u v lo hi Huv. unfold clamp, Rmin, Rmax.
  repeat (match goal with
          | |- context [Rle_dec ?p ?q] =>
              lazymatch p with
              | context [Rle_dec _ _] => fail
              | _ => lazymatch q with
                     | context [Rle_dec _ _] => fail
                     | _ => destruct (Rle_dec p q)
                     end
              end
          end); split; lra.
Qed.

Lemma clamp_idempotent_monotone_witness :
  -2 <= 0.3 /\ clamp (-2) 0 1 <= clamp 0.3 0 1.
Proof.
  assert (H : -2 <= 0.3) by lra.
  split; [exact H | apply (clamp_idempotent_monotone (-2) 0.3 0 1 H)].
Defined.

(** ** CanvasView.tsx: the ghosts of the pinned vectors *)


(** ** App.tsx: the update handlers *)

Lemma strictEq_true (u v : number) : strictEq u v = true <-> u = v.
Proof.
  unfold strictEq. destruct (Req_dec_T u v); split; intros H;
    congruence.
Qed.

Lemma matricesEqual_true (m1 m2 : Matrix) :
  matricesEqual m1 m2 = true <-> m1 = m2.
Proof.
  unfold matricesEqual. repeat rewrite andb_true_iff.
  repeat rewrite strictEq_true.
  destruct m1, m2; simpl. split.
  - intros [[[-> ->] ->] ->]. reflexivity.
  - intros H; injection H; auto.
Qed.

(** X6: [handleMatrixChange] stores the matrix it is given and names the
    preset: 'identity' when the four entries are those of the identity
    matrix, 'custom' for every other matrix. *)
Theorem handleMatrixChange_names_preset :
  forall (m : Matrix) (s : AppStore),
    matrix (state (handleMatrixChange m s)) = m
    /\ (m = identityMatrix ->
        presetId (state (handleMatrixChange m s)) = Some "identity"%string)
    /\ (m <> identityMatrix ->
        presetId (state (handleMatrixChange m s)) = Some "custom"%string).
Proof.
  intros m s. simpl. split; [reflexivity |].
  destruct (matricesEqual m identityMatrix) eqn:E.
  - apply matricesEqual_true in E. split; [reflexivity | contradiction].
  - split; [| reflexivity].
    intros Hm. apply matricesEqual_true in Hm. congruence.
Qed.

Lemma handleMatrixChange_names_preset_witness :
  presetId (state (handleMatrixChange (mkMatrix 1 0 0 1) playing_store))
  = Some "identity"%string
  /\ presetId (state (handleMatrixChange (mkMatrix 2 0 0 1) INITIAL_STORE))
     = Some "custom"%string.
Proof.
  split.
  - apply (proj1 (proj2 (handleMatrixChange_names_preset
                           (mkMatrix 1 0 0 1) playing_store))).
    reflexivity.
  - apply (proj2 (proj2 (handleMatrixChange_names_preset
                           (mkMatrix 2 0 0 1) INITIAL_STORE))).
    unfold identityMatrix. intros H. injection H. lra.
Defined.

(** X7: play/pause is a toggle: it negates [isPlaying], and pressing it
    twice gives back the store it started from. *)
Theorem handlePlayPause_toggle :
  forall s : AppStore,
    isPlaying (state (handlePlayPause s)) = negb (isPlaying (state s))
    /\ handlePlayPause (handlePlayPause s) = s.
Proof.
  intros [[m u p pins cam g pid playing] dir].
  split; [reflexivity |].
  unfold handlePlayPause, setState, with_isPlaying; simpl.
  rewrite negb_involutive. reflexivity.
Qed.

Lemma slice_last_append_length {A : Type} (l : list A) (p : A) :
  List.length (slice_last 6 (l ++ [p])) = Nat.min 6 (List.length l + 1).
Proof.
  unfold slice_last. rewrite List.length_skipn, List.length_app.
  change (List.length [p]) with 1%nat. lia.
Qed.

Lemma slice_last_append_split {A : Type} (l : list A) (p : A) :
  exists front, slice_last 6 (l ++ [p]) = front ++ [p].
Proof.
  unfold slice_last. rewrite List.length_app.
  change (List.length [p]) with 1%nat.
  exists (List.skipn (List.length l + 1 - 6) l).
  rewrite List.skipn_app.
  replace (List.length l + 1 - 6 - List.length l)%nat with 0%nat by lia.
  reflexivity.
Qed.

Lemma pin_times_length (n : nat) (s : AppStore) :
  (List.length (pinnedVectors (state s)) <= 6)%nat ->
  List.length (pinnedVectors (state (pin_times n s)))
  = Nat.min 6 (List.length (pinnedVectors (state s)) + n).
Proof.
  intros Hle. induction n as [| n IH].
  - cbn [pin_times]. lia.
  - cbn [pin_times]. rewrite handlePinVector_pins.
    rewrite slice_last_append_length, IH. lia.
Qed.

(** X8: each pin makes the list one longer until it holds 6 entries and
    keeps it at 6 from then on (n pins on a list of k <= 6 entries leave
    min(6, k + n) entries), and the entry just pinned is always the last
    one. *)
Theorem handlePinVector_length_last :
  forall (captured : Vector2) (s : AppStore) (n : nat),
    (List.length (pinnedVectors (state s)) <= 6)%nat ->
    let pins' := pinnedVectors (state (handlePinVector captured s)) in
    List.length pins'
    = Nat.min 6 (List.length (pinnedVectors (state s)) + 1)
    /\ List.last pins' (newPin (state s) captured) = newPin (state s) captured
    /\ List.In (newPin (state s) captured) pins'
    /\ List.length (pinnedVectors (state (pin_times n s)))
       = Nat.min 6 (List.length (pinnedVectors (state s)) + n).
Proof.
  intros captured s n Hle pins'.
  assert (Hpins' : pins' = slice_last 6 (pinnedVectors (state s)
                                          ++ [newPin (state s) captured]))
    by reflexivity.
  destruct (slice_last_append_split (pinnedVectors (state s))
              (newPin (state s) captured)) as [front Hfront].
  split; [rewrite Hpins'; apply slice_last_append_length |].
  split; [| split].
  - rewrite Hpins', Hfront. apply List.last_last.
  - rewrite Hpins', Hfront. apply List.in_or_app. right. left. reflexivity.
  - apply pin_times_length; exact Hle.
Qed.

Lemma handlePinVector_length_last_witness :
  (List.length (pinnedVectors (state INITIAL_STORE)) <= 6)%nat
  /\ List.length (pinnedVectors (state (pin_times 9 INITIAL_STORE)))
     = Nat.min 6 (List.length (pinnedVectors (state INITIAL_STORE)) + 9).
Proof.
  assert (Hle : (List.length (pinnedVectors (state INITIAL_STORE)) <= 6)%nat)
    by (simpl; lia).
  split; [exact Hle |].
  apply (handlePinVector_length_last (mkVector2 1 1) INITIAL_STORE 9 Hle).
Defined.

(** ** The running application: what each event leaves alone *)

Lemma step_app (ev : Event) (sys : System) :
  app (step ev sys) = app (handle ev sys).
Proof. unfold step. destruct (isPlaying _); reflexivity. Qed.

Lemma step_canvasRefs (ev : Event) (sys : System) :
  canvasRefs (step ev sys) = canvasRefs (handle ev sys).
Proof. unfold step. destruct (isPlaying _); reflexivity. Qed.

(** The calls of the canvas reach [handleProbeChange] and
    [handleCameraChange] only. *)
Lemma dispatchAll_frame (calls : list Callback) (s : AppStore) :
  let s' := dispatchAll calls s in
  matrix (state s') = matrix (state s)
  /\ t (state s') = t (state s)
  /\ pinnedVectors (state s') = pinnedVectors (state s)
  /\ gridMode (state s') = gridMode (state s)
  /\ presetId (state s') = presetId (state s)
  /\ isPlaying (state s') = isPlaying (state s)
  /\ directionRef s' = directionRef s.
Proof.
  unfold dispatchAll. revert s.
  induction calls as [| call calls IH]; intros s; simpl.
  - repeat split.
  - specialize (IH (dispatch call s)). cbv zeta in IH.
    destruct IH as (Hm & Ht & Hp & Hg & Hid & Hplay & Hdir).
    rewrite Hm, Ht, Hp, Hg, Hid, Hplay, Hdir.
    destruct call; repeat split.
Qed.

Lemma handleAnimationFrame_frame_model (delta : number) (s : AppStore) :
  let s' := handleAnimationFrame delta s in
  matrix (state s') = matrix (state s)
  /\ probeVector (state s') = probeVector (state s)
  /\ pinnedVectors (state s') = pinnedVectors (state s)
  /\ gridMode (state s') = gridMode (state s)
  /\ presetId (state s') = presetId (state s)
  /\ isPlaying (state s') = isPlaying (state s).
Proof.
  destruct (isPlaying (state s)) eqn:Hplay; cbv zeta.
  - destruct (handleAnimationFrame_cases delta s Hplay)
      as [[H1 ->] | [[H0 ->] | [Hin ->]]]; simpl; auto 10.
  - rewrite handleAnimationFrame_paused by assumption. auto 10.
Qed.

Ltac canvas_frame sys :=
  match goal with
  | |- context [dispatchAll ?calls (app sys)] =>
      let H := fresh in
      pose proof (dispatchAll_frame calls (app sys)) as H;
      cbv zeta in H; apply H
  end.

(** X9: the stored matrix changes only when a preset is chosen or the
    matrix is edited: playing, the slider, the probe, pins, the grid mode,
    the camera, animation frames, pointer and wheel events all leave it as
    it is. *)
Theorem matrix_changes_only_by_edit :
  forall (ev : Event) (sys : System),
    (forall preset, ev <> PresetChange preset) ->
    (forall m, ev <> MatrixChange m) ->
    matrix (state (app (step ev sys))) = matrix (state (app sys)).
Proof.
  intros ev sys Hpreset Hmatrix. rewrite step_app.
  destruct ev; simpl; try reflexivity; try canvas_frame sys.
  - exfalso. apply (Hpreset preset). reflexivity.
  - exfalso. apply (Hmatrix matrix0). reflexivity.
  - destruct (isPlaying (state (app sys))); [| reflexivity].
    destruct (previousRef sys); simpl; [| reflexivity].
    apply handleAnimationFrame_frame_model.
Qed.

Lemma matrix_changes_only_by_edit_witness :
  matrix (state (app (step (AnimationFrame 16) (step PlayPause INITIAL_SYSTEM))))
  = matrix (state (app (step PlayPause INITIAL_SYSTEM))).
Proof.
  apply (matrix_changes_only_by_edit (AnimationFrame 16)
           (step PlayPause INITIAL_SYSTEM)); intros; discriminate.
Defined.

(** X10: the pinned vectors change only when a vector is pinned; a pin keeps
    the image captured with it when the matrix is edited afterwards. *)
Theorem pins_change_only_by_pin :
  forall (ev : Event) (sys : System),
    ev <> PinVector ->
    pinnedVectors (state (app (step ev sys)))
    = pinnedVectors (state (app sys)).
Proof.
  intros ev sys Hpin. rewrite step_app.
  destruct ev; simpl; try reflexivity; try canvas_frame sys.
  - exfalso. apply Hpin. reflexivity.
  - destruct (isPlaying (state (app sys))); [| reflexivity].
    destruct (previousRef sys); simpl; [| reflexivity].
    apply handleAnimationFrame_frame_model.
Qed.

Lemma pins_change_only_by_pin_witness :
  pinnedVectors (state (app (step (MatrixChange (mkMatrix 0 1 1 0))
                                  (step PinVector INITIAL_SYSTEM))))
  = pinnedVectors (state (app (step PinVector INITIAL_SYSTEM))).
Proof.
  apply (pins_change_only_by_pin (MatrixChange (mkMatrix 0 1 1 0))
           (step PinVector INITIAL_SYSTEM)); discriminate.
Defined.

(** X11: t changes only through the slider and animation frames, and the
    direction of the sweep only through animation frames. *)
Theorem t_changes_only_by_slider_or_frame :
  forall (ev : Event) (sys : System),
    (forall time, ev <> AnimationFrame time) ->
    directionRef (app (step ev sys)) = directionRef (app sys)
    /\ ((forall value, ev <> TChange value) ->
        t (state (app (step ev sys))) = t (state (app sys))).
Proof.
  intros ev sys Hframe. rewrite step_app.
  destruct ev; simpl;
    try (split; [reflexivity | intros _; reflexivity]);
    try (split; [| intros _]; canvas_frame sys).
  - split; [reflexivity |]. intros Hslider.
    exfalso. apply (Hslider value). reflexivity.
  - exfalso. apply (Hframe time). reflexivity.
Qed.

Lemma t_changes_only_by_slider_or_frame_witness :
  directionRef (app (step (TChange 0.25) INITIAL_SYSTEM))
  = directionRef (app INITIAL_SYSTEM)
  /\ t (state (app (step PlayPause INITIAL_SYSTEM)))
     = t (state (app INITIAL_SYSTEM)).
Proof.
  split.
  - apply (t_changes_only_by_slider_or_frame (TChange 0.25) INITIAL_SYSTEM).
    intros; discriminate.
  - apply (t_changes_only_by_slider_or_frame PlayPause INITIAL_SYSTEM);
      intros; discriminate.
Defined.

(** X12: the animation is started and stopped by the user only: [isPlaying]
    changes through play/pause and through the slider (which stops it), and
    no animation frame, reaching a boundary included, clears it. *)
Theorem isPlaying_changes_only_by_user :
  forall (ev : Event) (sys : System),
    ev <> PlayPause ->
    (forall value, ev <> TChange value) ->
    isPlaying (state (app (step ev sys))) = isPlaying (state (app sys)).
Proof.
  intros ev sys Hplay Hslider. rewrite step_app.
  destruct ev; simpl; try reflexivity; try canvas_frame sys.
  - exfalso. apply Hplay. reflexivity.
  - exfalso. apply (Hslider value). reflexivity.
  - destruct (isPlaying (state (app sys))) eqn:E; [| exact E].
    destruct (previousRef sys); simpl; [| exact E].
    rewrite <- E. apply handleAnimationFrame_frame_model.
Qed.

Lemma isPlaying_changes_only_by_user_witness :
  isPlaying (state (app (step (AnimationFrame 99999)
                              (step (AnimationFrame 0)
                                    (step PlayPause INITIAL_SYSTEM)))))
  = isPlaying (state (app (step (AnimationFrame 0)
                                (step PlayPause INITIAL_SYSTEM)))).
Proof.
  apply (isPlaying_changes_only_by_user (AnimationFrame 99999)
           (step (AnimationFrame 0) (step PlayPause INITIAL_SYSTEM)));
    intros; discriminate.
Defined.

(** ** useAnimationFrame.ts: pausing and resuming *)

Lemma paused_previousRef (sys : System) :
  reachable sys ->
  isPlaying (state (app sys)) = false -> previousRef sys = None.
Proof.
  intros Hreach. destruct Hreach as [| ev sys Hreach].
  - reflexivity.
  - unfold step. destruct (isPlaying (state (app (handle ev sys)))) eqn:E.
    + intros Hpaused. congruence.
    + reflexivity.
Qed.

(** X13: no time is accumulated while the animation is paused.  In every
    reachable state that is not playing [previousRef] is empty and a frame
    changes nothing; after play is pressed the first frame only records its
    time and leaves t where it was, and the frame after it advances the
    animation by the time elapsed between the two frames. *)
Theorem resume_does_not_jump :
  forall (sys : System) (time time' : number),
    reachable sys ->
    isPlaying (state (app sys)) = false ->
    let resumed := step PlayPause sys in
    let first := step (AnimationFrame time) resumed in
    let second := step (AnimationFrame time') first in
    previousRef sys = None
    /\ step (AnimationFrame time) sys = sys
    /\ app first = app resumed
    /\ previousRef first = Some time
    /\ app second = handleAnimationFrame (time' - time) (app resumed).
Proof.
  intros sys time time' Hreach Hpaused resumed first second.
  pose proof (paused_previousRef sys Hreach Hpaused) as Hprev.
  assert (Hresumed : resumed
                     = {| app := handlePlayPause (app sys);
                          canvasRefs := canvasRefs sys;
                          previousRef := None |}).
  { unfold resumed, step. simpl. rewrite Hpaused. simpl.
    unfold onApp. rewrite Hprev. reflexivity. }
  assert (Hfirst : first
                   = {| app := handlePlayPause (app sys);
                        canvasRefs := canvasRefs sys;
                        previousRef := Some time |}).
  { unfold first. rewrite Hresumed. unfold step. simpl.
    repeat (rewrite Hpaused; simpl). reflexivity. }
  split; [exact Hprev |].
  split.
  { unfold step. simpl. rewrite Hpaused. simpl. rewrite Hpaused.
    unfold deactivate. rewrite <- Hprev. destruct sys; reflexivity. }
  split; [rewrite Hfirst, Hresumed; reflexivity |].
  split; [rewrite Hfirst; reflexivity |].
  unfold second. rewrite step_app, Hfirst, Hresumed. simpl.
  repeat (rewrite Hpaused; simpl). reflexivity.
Qed.

Lemma resume_does_not_jump_witness :
  reachable (step (TChange 0.5) INITIAL_SYSTEM)
  /\ isPlaying (state (app (step (TChange 0.5) INITIAL_SYSTEM))) = false
  /\ app (step (AnimationFrame 123456)
               (step PlayPause (step (TChange 0.5) INITIAL_SYSTEM)))
     = app (step PlayPause (step (TChange 0.5) INITIAL_SYSTEM)).
Proof.
  assert (Hr : reachable (step (TChange 0.5) INITIAL_SYSTEM))
    by (apply reachable_step, reachable_initial).
  assert (Hp : isPlaying (state (app (step (TChange 0.5) INITIAL_SYSTEM)))
               = false) by reflexivity.
  split; [exact Hr | split; [exact Hp |]].
  apply (resume_does_not_jump (step (TChange 0.5) INITIAL_SYSTEM)
           123456 0 Hr Hp).
Defined.

(** ** The running application: two more invariants *)

(** X15: the zoom of the camera is in [20, 400] in every state the
    application reaches: the initial and the reset camera have zoom 80,
    panning keeps the zoom and the wheel clamps it. *)
Theorem reachable_zoom_in_bounds :
  forall sys : System,
    reachable sys -> 20 <= zoom (camera (state (app sys))) <= 400.
Proof.
  intros sys Hreach. apply (reachable_invariant sys Hreach).
Qed.

Lemma reachable_zoom_in_bounds_witness :
  20 <= zoom (camera (state (app (step
          (Wheel (Some sample_rect)
                 (mkWheelEvent (mkMouseEvent 10 10) 5000))
          INITIAL_SYSTEM)))) <= 400.
Proof.
  apply reachable_zoom_in_bounds. apply reachable_step, reachable_initial.
Defined.

(** X16: the direction of the sweep is +1 or -1 in every state the
    application reaches. *)
Theorem reachable_direction_sign :
  forall sys : System,
    reachable sys ->
    directionRef (app sys) = 1 \/ directionRef (app sys) = -1.
Proof.
  intros sys Hreach. apply (reachable_invariant sys Hreach).
Qed.

Lemma reachable_direction_sign_witness :
  directionRef (app (step (AnimationFrame 5) INITIAL_SYSTEM)) = 1
  \/ directionRef (app (step (AnimationFrame 5) INITIAL_SYSTEM)) = -1.
Proof.
  apply reachable_direction_sign. apply reachable_step, reachable_initial.
Defined.

(** ** CanvasView.tsx: the scale of the screen *)






(** ** CanvasView.tsx: the pointer handlers *)





(** ** CanvasView.tsx with App.tsx: gestures *)

(** The distance, in pixels, between a press and the tip of the probe
    vector, as [handlePointerDown] computes it from the state. *)
Lemma press_mode (sys : System) (rect : DOMRect) (event : MouseEvent) :
  let st := state (app sys) in
  let point := eventPoint rect event in
  let tip :=
    worldToScreen (camera st) (probeVector st) (width rect) (height rect) in
  let down := step (PointerDown (Some rect) event) sys in
  app down = app sys
  /\ pointerMovedRef (canvasRefs down) = false
  /\ lastPointerRef (canvasRefs down) = point
  /\ (hypot (x tip - x point) (y tip - y point) < 16 ->
      dragModeRef (canvasRefs down) = vector)
  /\ (16 <= hypot (x tip - x point) (y tip - y point) ->
      dragModeRef (canvasRefs down) = pan).
Proof.
  intros st point tip down. subst st point tip down.
  rewrite step_app, step_canvasRefs. simpl.
  match goal with
  | |- context [Rlt_dec ?u 16] => destruct (Rlt_dec u 16)
  end; repeat split; intros; try reflexivity; lra.
Qed.



(** A pointer move of a pan, seen from the application. *)
Lemma pan_move_step (sys : System) (rect : DOMRect) (event : MouseEvent) :
  dragModeRef (canvasRefs sys) = pan ->
  let cam := camera (state (app sys)) in
  let point := eventPoint rect event in
  let last := lastPointerRef (canvasRefs sys) in
  let moved := step (PointerMove (Some rect) event) sys in
  app moved
  = handleCameraChange
      {| offsetX := offsetX cam - (x point - x last) / zoom cam;
         offsetY := offsetY cam + (y point - y last) / zoom cam;
         zoom := zoom cam |} (app sys)
  /\ canvasRefs moved = mkRefs pan true point.
Proof.
  intros Hpan cam point last moved. subst cam point last moved.
  rewrite step_app, step_canvasRefs.
  unfold handle, onCanvas, handlePointerMove. cbv beta iota zeta.
  rewrite Hpan. split; reflexivity.
Qed.

(** X21: a drag that starts away from the tip of the probe vector pans:
    the move shifts the camera offset by the pixel delta over the zoom, and
    the release changes nothing more; the probe vector is where it was,
    also when the pointer is released on the very pixel it was pressed
    on. *)
Theorem pan_drag_keeps_probe :
  forall (sys : System) (rect : DOMRect) (press move release : MouseEvent),
    let st := state (app sys) in
    let p1 := eventPoint rect press in
    let p2 := eventPoint rect move in
    let tip :=
      worldToScreen (camera st) (probeVector st) (width rect) (height rect) in
    16 <= hypot (x tip - x p1) (y tip - y p1) ->
    let moved :=
      step (PointerMove (Some rect) move)
           (step (PointerDown (Some rect) press) sys) in
    let up := step (PointerUp (Some rect) release) moved in
    camera (state (app moved))
    = {| offsetX := offsetX (camera st) - (x p2 - x p1) / zoom (camera st);
         offsetY := offsetY (camera st) + (y p2 - y p1) / zoom (camera st);
         zoom := zoom (camera st) |}
    /\ app up = app moved
    /\ probeVector (state (app up)) = probeVector st
    /\ dragModeRef (canvasRefs up) = none
    /\ pointerMovedRef (canvasRefs up) = false.
Proof.
  intros sys rect press move release st p1 p2 tip Hfar moved up.
  destruct (press_mode sys rect press) as (Happ & _ & Hlast & _ & Hmode).
  fold st p1 in Hlast. fold st p1 tip in Hmode.
  specialize (Hmode Hfar).
  set (down := step (PointerDown (Some rect) press) sys) in *.
  destruct (pan_move_step down rect move Hmode) as (Hmoved & Hrefs).
  fold moved in Hmoved, Hrefs. rewrite Happ, Hlast in Hmoved.
  fold st p2 in Hmoved.
  assert (Hup_app : app up = app moved).
  { unfold up. rewrite step_app. unfold handle, onCanvas.
    cbv beta iota zeta. cbn [app]. rewrite Hrefs. reflexivity. }
  assert (Hup_refs : canvasRefs up = mkRefs none false p2).
  { unfold up. rewrite step_canvasRefs. unfold handle, onCanvas.
    cbv beta iota zeta. cbn [canvasRefs]. rewrite Hrefs. reflexivity. }
  rewrite Hup_app, Hup_refs, Hmoved.
  repeat split.
Qed.

Lemma pan_drag_keeps_probe_witness :
  16 <= hypot (480 - 100) (220 - 50)
  /\ probeVector
       (state (app
          (step (PointerUp (Some sample_rect) (mkMouseEvent 100 50))
             (step (PointerMove (Some sample_rect) (mkMouseEvent 130 90))
                (step (PointerDown (Some sample_rect) (mkMouseEvent 100 50))
                      INITIAL_SYSTEM)))))
     = probeVector (state (app INITIAL_SYSTEM)).
Proof.
  assert (Hfar : 16 <= hypot (480 - 100) (220 - 50)).
  { unfold hypot. rewrite <- (sqrt_square 16) at 1 by lra.
    apply sqrt_le_1_alt. lra. }
  split; [exact Hfar |].
  apply (pan_drag_keeps_probe INITIAL_SYSTEM sample_rect
           (mkMouseEvent 100 50) (mkMouseEvent 130 90) (mkMouseEvent 100 50)).
  unfold worldToScreen, eventPoint; simpl.
  replace ((1 - 0) * 80 + 800 / 2 - (100 - 0)) with (480 - 100) by lra.
  replace (600 / 2 - (1 - 0) * 80 - (50 - 0)) with (220 - 50) by lra.
  exact Hfar.
Defined.

(** ** CanvasView.tsx: events that do nothing *)

Lemma step_identity (ev : Event) (sys : System) :
  reachable sys -> handle ev sys = sys -> step ev sys = sys.
Proof.
  intros Hreach Hhandle. unfold step. rewrite Hhandle.
  destruct (isPlaying (state (app sys))) eqn:Hplay; [reflexivity |].
  unfold deactivate. rewrite <- (paused_previousRef sys Hreach Hplay).
  destruct sys; reflexivity.
Qed.

(** X23: without a canvas element every pointer and wheel handler returns
    at once: the event changes nothing, neither the state of the
    application nor the refs of the canvas. *)
Theorem missing_canvas_changes_nothing :
  forall (sys : System) (event : MouseEvent) (wheel : WheelEvent),
    reachable sys ->
    step (PointerDown None event) sys = sys
    /\ step (PointerMove None event) sys = sys
    /\ step (PointerUp None event) sys = sys
    /\ step (PointerLeave None event) sys = sys
    /\ step (Wheel None wheel) sys = sys.
Proof.
  intros sys event wheel Hreach.
  repeat split; apply step_identity; try exact Hreach;
    destruct sys; reflexivity.
Qed.

Lemma missing_canvas_changes_nothing_witness :
  step (Wheel None (mkWheelEvent (mkMouseEvent 1 2) 300))
       (step PlayPause INITIAL_SYSTEM)
  = step PlayPause INITIAL_SYSTEM.
Proof.
  apply (missing_canvas_changes_nothing (step PlayPause INITIAL_SYSTEM)
           (mkMouseEvent 1 2) (mkWheelEvent (mkMouseEvent 1 2) 300)).
  apply reachable_step, reachable_initial.
Defined.



(** ** CanvasView.tsx: the wheel *)

Lemma exp_ge_1 (u : number) : 0 <= u -> 1 <= exp u.
Proof. intros Hu. pose proof (exp_ineq1_le u). lra. Qed.

Lemma exp_le_1 (u : number) : u <= 0 -> exp u <= 1.
Proof.
  intros Hu.
  assert (H1 : 1 <= exp (- u)) by (apply exp_ge_1; lra).
  rewrite exp_Ropp in H1. pose proof (exp_pos u) as Hpos.
  apply (Rmult_le_compat_r (exp u)) in H1; [| lra].
  rewrite Rinv_l in H1 by lra. lra.
Qed.

(** The camera passed to [onCameraChange] when the zoom does not change. *)
Lemma handleWheel_same_zoom (rect : DOMRect) (cam : CameraState)
                            (event : WheelEvent) :
  clamp (zoom cam * exp (- deltaY event * 0.001)) MIN_ZOOM MAX_ZOOM
  = zoom cam ->
  handleWheel (Some rect) cam event = [onCameraChange cam].
Proof.
  intros Hsame. rewrite handleWheel_camera. cbv zeta. rewrite Hsame.
  destruct cam as [ox oy z]. unfold screenToWorld; simpl.
  do 3 f_equal; unfold number in *; ring.
Qed.

(** X25: scrolling up (deltaY <= 0) never lowers the zoom and scrolling
    down (deltaY >= 0) never raises it; a wheel event with deltaY = 0, and
    one that would leave the bounds from a zoom already at the bound, asks
    for the camera as it is. *)
Theorem wheel_direction :
  forall (rect : DOMRect) (camera : CameraState) (event : WheelEvent),
    zoom_in_bounds (zoom camera) ->
    exists newCamera : CameraState,
      handleWheel (Some rect) camera event = [onCameraChange newCamera]
      /\ (deltaY event <= 0 -> zoom camera <= zoom newCamera)
      /\ (0 <= deltaY event -> zoom newCamera <= zoom camera)
      /\ (deltaY event = 0 -> newCamera = camera)
      /\ (deltaY event <= 0 -> zoom camera = MAX_ZOOM -> newCamera = camera)
      /\ (0 <= deltaY event -> zoom camera = MIN_ZOOM -> newCamera = camera).
Proof.
  intros rect camera event Hz.
  set (factor := exp (- deltaY event * 0.001)).
  assert (Hpos : 0 < zoom camera)
    by (unfold zoom_in_bounds, MIN_ZOOM in Hz; lra).
  assert (Hup : deltaY event <= 0 ->
                zoom camera
                <= clamp (zoom camera * factor) MIN_ZOOM MAX_ZOOM).
  { intros Hd.
    assert (1 <= factor) by (apply exp_ge_1; lra).
    rewrite <- (clamp_inside (zoom camera) MIN_ZOOM MAX_ZOOM Hz) at 1.
    apply clamp_monotone. nra. }
  assert (Hdown : 0 <= deltaY event ->
                  clamp (zoom camera * factor) MIN_ZOOM MAX_ZOOM
                  <= zoom camera).
  { intros Hd.
    assert (factor <= 1) by (apply exp_le_1; lra).
    rewrite <- (clamp_inside (zoom camera) MIN_ZOOM MAX_ZOOM Hz) at 2.
    apply clamp_monotone. nra. }
  pose proof (clamp_zoom (zoom camera * factor)) as Hnew.
  unfold zoom_in_bounds in Hnew, Hz.
  assert (Hsame : clamp (zoom camera * factor) MIN_ZOOM MAX_ZOOM
                  = zoom camera ->
                  handleWheel (Some rect) camera event
                  = [onCameraChange camera])
    by apply handleWheel_same_zoom.
  assert (Hcase : forall cam', handleWheel (Some rect) camera event
                               = [onCameraChange cam'] ->
                               clamp (zoom camera * factor) MIN_ZOOM MAX_ZOOM
                               = zoom camera -> cam' = camera).
  { intros cam' Hcam' Heq. rewrite (Hsame Heq) in Hcam'.
    injection Hcam'. auto. }
  eexists. split; [apply handleWheel_camera |].
  cbv zeta. fold factor. simpl zoom.
  split; [exact Hup | split; [exact Hdown |]].
  pose proof (handleWheel_camera rect camera event) as Hcam.
  cbv zeta in Hcam. fold factor in Hcam.
  split; [| split].
  - intros H0. apply (Hcase _ Hcam).
    specialize (Hup ltac:(lra)). specialize (Hdown ltac:(lra)). lra.
  - intros Hd Hmax. apply (Hcase _ Hcam). specialize (Hup Hd). lra.
  - intros Hd Hmin. apply (Hcase _ Hcam). specialize (Hdown Hd). lra.
Qed.

Lemma wheel_direction_witness :
  zoom_in_bounds (zoom INITIAL_CAMERA)
  /\ exists newCamera : CameraState,
       handleWheel (Some sample_rect) INITIAL_CAMERA
                   (mkWheelEvent (mkMouseEvent 100 50) (-240))
       = [onCameraChange newCamera]
       /\ zoom INITIAL_CAMERA <= zoom newCamera.
Proof.
  assert (Hz : zoom_in_bounds (zoom INITIAL_CAMERA)).
  { unfold zoom_in_bounds, MIN_ZOOM, MAX_ZOOM; simpl; lra. }
  split; [exact Hz |].
  destruct (wheel_direction sample_rect INITIAL_CAMERA
              (mkWheelEvent (mkMouseEvent 100 50) (-240)) Hz)
    as (newCamera & Hcall & Hup & _).
  exists newCamera. split; [exact Hcall |].
  apply Hup. simpl. lra.
Defined.

(** ** presets.ts and the lookups of presets *)

Lemma Map_get_set_same {V : Type} (key : string) (value : V)
                       (m : list (string * V)) :
  Map_get key (Map_set key value m) = Some value.
Proof.
  induction m as [| [k v] rest IH]; simpl.
  - rewrite String.eqb_refl. reflexivity.
  - destruct (String.eqb k key) eqn:E; simpl; rewrite E; auto.
Qed.

Lemma Map_get_set_other {V : Type} (key other : string) (value : V)
                        (m : list (string * V)) :
  String.eqb other key = false ->
  Map_get key (Map_set other value m) = Map_get key m.
Proof.
  intros Hne. induction m as [| [k v] rest IH]; simpl.
  - rewrite Hne. reflexivity.
  - destruct (String.eqb k other) eqn:E; simpl.
    + apply String.eqb_eq in E. subst k. rewrite Hne. reflexivity.
    + destruct (String.eqb k key); auto.
Qed.

Lemma find_app_last {A : Type} (f : A -> bool) (l : list A) (e : A) :
  List.find f (l ++ [e])
  = match List.find f l with
    | Some found => Some found
    | None => if f e then Some e else None
    end.
Proof.
  induction l as [| h l IH]; simpl.
  - reflexivity.
  - destruct (f h); auto.
Qed.

(** The value of a key in a map built by successive [set]s is the value of
    the last entry with that key. *)
Lemma Map_get_fold {V : Type} (key : string) (entries : list (string * V)) :
  forall m : list (string * V),
    Map_get key
      (fold_left (fun m entry => Map_set (fst entry) (snd entry) m) entries m)
    = match List.find (fun entry => String.eqb (fst entry) key)
                      (List.rev entries) with
      | Some entry => Some (snd entry)
      | None => Map_get key m
      end.
Proof.
  induction entries as [| [k v] entries IH]; intros m; simpl.
  - reflexivity.
  - rewrite IH, find_app_last. simpl.
    destruct (List.find _ (List.rev entries)); [reflexivity |].
    destruct (String.eqb k key) eqn:E.
    + apply String.eqb_eq in E. subst k. apply Map_get_set_same.
    + apply Map_get_set_other. exact E.
Qed.

Lemma presetMap_custom (numberToString : number -> string) :
  Map_get "custom" (presetMap numberToString) = Some customPreset.
Proof. unfold presetMap. rewrite Map_get_fold. reflexivity. Qed.

(** X28: the lookups of a preset never come back empty.  [currentPreset]
    is the 'custom' preset for a missing or empty preset id and for an id
    that is not in the table, and the entry of the table otherwise; the
    selector of the sidebar falls back to the last preset of the table,
    which is 'custom', for a value that matches no id. *)
Theorem preset_lookup_falls_back_to_custom :
  forall (numberToString : number -> string) (id : string),
    currentPreset numberToString None = Some customPreset
    /\ currentPreset numberToString (Some ""%string) = Some customPreset
    /\ (exists preset,
           currentPreset numberToString (Some id) = Some preset
           /\ (Map_get id (presetMap numberToString) = None ->
               preset = customPreset))
    /\ (exists preset,
           selectedPreset numberToString id = Some preset
           /\ (List.find (fun item => String.eqb (Preset.id item) id)
                         (presets numberToString) = None ->
               preset = customPreset)).
Proof.
  intros numberToString id.
  pose proof (presetMap_custom numberToString) as Hcustom.
  split; [exact Hcustom | split; [exact Hcustom | split]].
  - unfold currentPreset.
    destruct (String.eqb id "") eqn:Hempty.
    + exists customPreset. split; [exact Hcustom | reflexivity].
    + destruct (Map_get id (presetMap numberToString)) as [preset |] eqn:Hget.
      * exists preset. split; [reflexivity | discriminate].
      * exists customPreset. split; [exact Hcustom | reflexivity].
  - unfold selectedPreset.
    destruct (List.find _ (presets numberToString)) as [preset |] eqn:Hfind.
    + exists preset. split; [reflexivity | discriminate].
    + exists customPreset. split; reflexivity.
Qed.

Lemma preset_lookup_falls_back_to_custom_witness :
  Map_get "no-such-preset" (presetMap (fun _ => "n"%string)) = None
  /\ currentPreset (fun _ => "n"%string) (Some "no-such-preset"%string)
     = Some customPreset.
Proof.
  assert (Hnone : Map_get "no-such-preset" (presetMap (fun _ => "n"%string))
                  = None).
  { unfold presetMap. rewrite Map_get_fold. reflexivity. }
  split; [exact Hnone |].
  destruct (preset_lookup_falls_back_to_custom (fun _ => "n"%string)
              "no-such-preset")
    as (_ & _ & (preset & Hcurrent & Hfallback) & _).
  rewrite Hcurrent. rewrite (Hfallback Hnone). reflexivity.
Defined.

(** ** CanvasView.tsx: the grid *)


(** With enough fuel a counting loop runs through [steps]. *)
Lemma forUpTo_steps {A : Type} (body : number -> A) (bound step : number) :
  0 < step ->
  forall (n fuel : nat) (v : number),
    (n + 2 <= fuel)%nat ->
    v + INR n * step <= bound < v + INR (S n) * step ->
    forUpTo fuel v bound step body = List.map body (steps n v step).
Proof.
  intros Hstep. induction n as [| n IH]; intros fuel v Hfuel Hbound.
  - destruct fuel as [| [| fuel]]; try lia.
    simpl in Hbound. simpl.
    destruct (Rle_dec v bound); [| lra].
    destruct (Rle_dec (v + step) bound); [lra | reflexivity].
  - destruct fuel as [| fuel]; try lia.
    rewrite !S_INR in Hbound. pose proof (pos_INR n) as Hn.
    assert (Hprod : 0 <= INR n * step) by (apply Rmult_le_pos; lra).
    cbn [forUpTo steps List.map].
    destruct (Rle_dec v bound); [| lra].
    f_equal. apply IH; [lia |]. rewrite S_INR. lra.
Qed.

Lemma steps_length (n : nat) (v step : number) :
  List.length (steps n v step) = S n.
Proof.
  revert v. induction n as [| n IH]; intros v; simpl; [| rewrite IH];
    reflexivity.
Qed.

Lemma sampled_line (fuel : nat) (body : number -> Vector2) :
  (34 <= fuel)%nat ->
  forUpTo fuel 0 GRID_SAMPLES 1 body = List.map body (steps 32 0 1).
Proof.
  intros Hfuel. apply forUpTo_steps; [lra | lia |].
  unfold GRID_SAMPLES. simpl. lra.
Qed.

Lemma swept_lines {A : Type} (fuel : nat) (body : number -> A) :
  (34 <= fuel)%nat ->
  forUpTo fuel (- GRID_RANGE) GRID_RANGE GRID_STEP body
  = List.map body (steps 20 (- GRID_RANGE) GRID_STEP).
Proof.
  intros Hfuel. apply forUpTo_steps; [unfold GRID_STEP; lra | lia |].
  unfold GRID_RANGE, GRID_STEP. simpl. lra.
Qed.

Lemma filter_map_none {A B : Type} (f : B -> bool) (g : A -> B)
                      (l : list A) :
  (forall e, f (g e) = false) -> List.filter f (List.map g l) = [].
Proof.
  intros Hf. induction l as [| e l IH]; simpl; [| rewrite Hf]; auto.
Qed.

Lemma filter_map_all {A B : Type} (f : B -> bool) (g : A -> B)
                     (l : list A) :
  (forall e, f (g e) = true) ->
  List.filter f (List.map g l) = List.map g l.
Proof.
  intros Hf. induction l as [| e l IH]; simpl; [| rewrite Hf, IH]; auto.
Qed.

Lemma drawLine_counts (cam : CameraState) (w h : number)
                      (points : list Vector2) :
  points <> [] ->
  List.length (List.filter isStroke (drawLine cam w h points)) = 1%nat
  /\ List.length (List.filter isLineTo (drawLine cam w h points))
     = (List.length points - 1)%nat.
Proof.
  intros Hne. destruct points as [| first rest]; [contradiction |].
  clear Hne. unfold drawLine. cbv zeta.
  cbn [List.app List.filter isStroke isLineTo].
  rewrite !List.filter_app.
  rewrite filter_map_none by reflexivity.
  rewrite filter_map_all by reflexivity.
  cbn [List.filter isStroke isLineTo List.app List.length].
  rewrite List.length_app, List.length_map. simpl. split; [reflexivity | lia].
Qed.

Lemma concat_counts (f : CanvasOp -> bool) (k : nat)
                    (paths : list (list CanvasOp)) :
  Forall (fun path => List.length (List.filter f path) = k) paths ->
  List.length (List.filter f (List.concat paths))
  = (List.length paths * k)%nat.
Proof.
  induction 1 as [| path paths Hpath _ IH]; simpl.
  - reflexivity.
  - rewrite List.filter_app, List.length_app, Hpath, IH. reflexivity.
Qed.

Lemma gridLines_shape (fuel : nat) (m : Matrix) (u : number) (dt : bool) :
  (34 <= fuel)%nat ->
  List.length (gridLines fuel m u dt) = 42%nat
  /\ Forall (fun line => List.length line = 33%nat) (gridLines fuel m u dt).
Proof.
  intros Hfuel. unfold gridLines.
  rewrite !swept_lines by exact Hfuel.
  split.
  - rewrite List.length_app, !List.length_map, steps_length. reflexivity.
  - apply Forall_app. split; apply Forall_map, Forall_forall; intros v _.
    + unfold verticalLine. rewrite sampled_line by exact Hfuel.
      rewrite List.length_map, steps_length. reflexivity.
    + unfold horizontalLine. rewrite sampled_line by exact Hfuel.
      rewrite List.length_map, steps_length. reflexivity.
Qed.

Lemma gridLines_fuel (fuel : nat) (m : Matrix) (u : number) (dt : bool) :
  (34 <= fuel)%nat -> gridLines fuel m u dt = gridLines 34 m u dt.
Proof.
  intros Hfuel. unfold gridLines.
  rewrite !(swept_lines fuel) by exact Hfuel.
  rewrite !(swept_lines 34) by lia.
  f_equal; apply List.map_ext; intros v.
  - unfold verticalLine. rewrite (sampled_line fuel) by exact Hfuel.
    rewrite (sampled_line 34) by lia. reflexivity.
  - unfold horizontalLine. rewrite (sampled_line fuel) by exact Hfuel.
    rewrite (sampled_line 34) by lia. reflexivity.
Qed.

(** X29: The grid: [drawGrid] draws 21 vertical and 21 horizontal lines, each
    through 33 sample points, so it strokes 42 paths of 32 segments; the
    loops end by themselves, more fuel than they need changes nothing. *)
Theorem drawGrid_counts :
  forall (fuel : nat) (camera : CameraState) (matrix : Matrix)
         (t width height : number) (color : string) (drawTransformed : bool),
    (34 <= fuel)%nat ->
    let ops :=
      drawGrid fuel camera matrix t width height color drawTransformed in
    List.length (gridLines fuel matrix t drawTransformed) = 42%nat
    /\ Forall (fun line => List.length line = 33%nat)
              (gridLines fuel matrix t drawTransformed)
    /\ List.length (List.filter isStroke ops) = 42%nat
    /\ List.length (List.filter isLineTo ops) = 1344%nat
    /\ ops = drawGrid 34 camera matrix t width height color drawTransformed.
Proof.
  intros fuel cam m u w h color dt Hfuel ops.
  destruct (gridLines_shape fuel m u dt Hfuel) as (Hlength & Hlines).
  assert (Hpaths :
            forall f k,
              (forall line, List.length line = 33%nat ->
                            List.length
                              (List.filter f (drawLine cam w h line)) = k) ->
              List.length
                (List.filter f
                   (List.concat
                      (List.map (drawLine cam w h) (gridLines fuel m u dt))))
              = (42 * k)%nat).
  { intros f k Hk. rewrite (concat_counts f k).
    - rewrite List.length_map, Hlength. reflexivity.
    - apply Forall_map. revert Hlines. apply Forall_impl. exact Hk. }
  assert (Hne : forall line : list Vector2,
             List.length line = 33%nat -> line <> []).
  { intros line Hline Hnil. subst line. discriminate. }
  split; [exact Hlength | split; [exact Hlines |]].
  unfold ops, drawGrid.
  rewrite !List.filter_app, !List.length_app.
  split; [| split].
  - rewrite (Hpaths isStroke 1%nat).
    + destruct dt; reflexivity.
    + intros line Hline. apply drawLine_counts, Hne, Hline.
  - rewrite (Hpaths isLineTo 32%nat).
    + destruct dt; reflexivity.
    + intros line Hline.
      rewrite (proj2 (drawLine_counts cam w h line (Hne line Hline))).
      rewrite Hline. reflexivity.
  - rewrite (gridLines_fuel fuel m u dt Hfuel). reflexivity.
Qed.

Lemma drawGrid_counts_witness :
  (34 <= 50)%nat
  /\ List.length
       (List.filter isStroke
          (drawGrid 50 INITIAL_CAMERA (mkMatrix 0 1 1 0) 0.5 800 600
                    "#cbd5f5" false)) = 42%nat.
Proof.
  assert (Hfuel : (34 <= 50)%nat) by lia.
  split; [exact Hfuel |].
  apply (drawGrid_counts 50 INITIAL_CAMERA (mkMatrix 0 1 1 0) 0.5 800 600
           "#cbd5f5" false Hfuel).
Defined.



(** * The code on binary64 *)

Section Binary64Properties.

Import PrimFloat SpecFloat FloatOps FloatAxioms.
Local Open Scope float_scope.
Local Set Warnings "-inexact-float".

(** ** The slider and NaN *)

Lemma ltb_leb (u v : float) : (u <? v) = true -> (u <=? v) = true.
Proof.
  rewrite ltb_spec, leb_spec. unfold SFltb, SFleb.
  destruct (SFcompare (Prim2SF u) (Prim2SF v)) as [[| |] |];
    intros H; congruence.
Qed.

Lemma eqb_leb (u v : float) : (u =? v) = true -> (u <=? v) = true.
Proof.
  rewrite eqb_spec, leb_spec. unfold SFeqb, SFleb.
  destruct (SFcompare (Prim2SF u) (Prim2SF v)) as [[| |] |];
    intros H; congruence.
Qed.

(** On binary64 [clamp(value, 0, 1)] is in [0, 1] for every value that is
    not NaN, the infinities included. *)
Lemma clamp_unit_interval (value : float) :
  is_nan value = false ->
  (0 <=? Binary64.clamp value 0 1) = true
  /\ (Binary64.clamp value 0 1 <=? 1) = true.
Proof.
  intros Hnan. unfold Binary64.clamp.
  assert (Hmax : Binary64.Math_max 0 value = 0
                 \/ (Binary64.Math_max 0 value = value
                     /\ (0 <? value) = true)).
  { unfold Binary64.Math_max. rewrite Hnan.
    change (is_nan 0) with false. change (get_sign 0) with false.
    cbn [orb]. destruct (0 =? value); [left; reflexivity |].
    destruct (0 <? value) eqn:E; [right; split; reflexivity
                                 | left; reflexivity]. }
  destruct Hmax as [-> | [-> Hpos]].
  - split; reflexivity.
  - unfold Binary64.Math_min. rewrite Hnan.
    change (is_nan 1) with false. cbn [orb].
    pose proof (ltb_leb 0 value Hpos) as H0.
    destruct (value =? 1) eqn:E1.
    + destruct (get_sign value).
      * split; [exact H0 | apply eqb_leb; exact E1].
      * split; reflexivity.
    + destruct (value <? 1) eqn:E2.
      * split; [exact H0 | apply ltb_leb; exact E2].
      * split; reflexivity.
Qed.


(** ** formatNumber with the platform's toFixed *)

Example formatNumber_examples :
  formatNumber Binary64.toFixed 1.5 None = Normal "1.50"%string
  /\ formatNumber Binary64.toFixed 1.005 (Some 2) = Normal "1.00"%string
  /\ formatNumber Binary64.toFixed (-0.001) (Some 2) = Normal "-0.00"%string
  /\ formatNumber Binary64.toFixed 2.5 (Some 0) = Normal "3"%string
  /\ formatNumber Binary64.toFixed 1234.5678 (Some 1)
     = Normal "1234.6"%string
  /\ formatNumber Binary64.toFixed 0 None = Normal "0.00"%string
  /\ formatNumber Binary64.toFixed nan None = Normal SENTINEL
  /\ formatNumber Binary64.toFixed infinity (Some 101) = Normal SENTINEL.
Proof. repeat split; vm_compute; reflexivity. Qed.

(** [scaled] is the rounding that [toFixed] asks for: n is the integer
    nearest to m * 2^e * 10^f, the larger of the two on a tie. *)
Lemma scaled_nearest (m : positive) (e f : Z) :
  (0 <= f)%Z ->
  let n := Binary64.scaled m e f in
  ((0 <= e)%Z -> n = (Zpos m * 2 ^ e * 10 ^ f)%Z)
  /\ ((e < 0)%Z ->
      (2 * (Zpos m * 10 ^ f) - 2 ^ (- e) < 2 * (n * 2 ^ (- e))
       <= 2 * (Zpos m * 10 ^ f) + 2 ^ (- e))%Z).
Proof.
  intros Hf n. subst n. unfold Binary64.scaled. split.
  - intros He. apply Z.leb_le in He. rewrite He. reflexivity.
  - intros He. assert (Hneg : (0 <=? e)%Z = false) by (apply Z.leb_gt; lia).
    rewrite Hneg.
    replace (1 - e)%Z with (Z.succ (- e)) by lia.
    rewrite Z.pow_succ_r by lia.
    set (den := (2 ^ (- e))%Z).
    set (num := (Zpos m * 10 ^ f)%Z).
    assert (Hden : (0 < den)%Z) by (apply Z.pow_pos_nonneg; lia).
    pose proof (Z.div_mod (2 * num + den) (2 * den) ltac:(lia)) as Hdiv.
    pose proof (Z.mod_pos_bound (2 * num + den) (2 * den) ltac:(lia)) as Hmod.
    nia.
Qed.

(** The claim of C9 as it is worded fails on the code: for the finite value
    1 and the precision 101 [formatNumber] raises a [RangeError] instead of
    returning a rendering, and for the finite value 1e21 it returns the
    exponent form [1e+21], which has no decimals at all, not the value with
    2 decimals. *)
Lemma formatNumber_not_every_precision :
  formatNumber Binary64.toFixed 1 (Some 101) = Throw "RangeError"
  /\ formatNumber Binary64.toFixed 1e21 (Some 2) = Normal "1e+21"%string.
Proof. split; vm_compute; reflexivity. Qed.

(** C9 (as amended): for every finite value and every precision whose
    integer part is between 0 and 100, [formatNumber] returns what
    [value.toFixed(precision)] returns, a string and never an exception;
    when the magnitude m * 2^e is below 10^21 that string is the sign
    followed by the integer n nearest to m * 2^e * 10^f (the larger on a
    tie), written with a decimal point before its last f digits.  For a finite value and
    any other precision it raises a [RangeError].  For every value that is
    not finite (NaN, +infinity, -infinity) and every precision, also one
    [toFixed] would refuse, it returns the sentinel string of the source,
    the literal of linearAlgebra.ts line 36 byte for byte, and raises
    nothing. *)
Theorem formatNumber_renders_or_raises :
  forall (value : float) (precision : option float),
    let p := match precision with Some p => p | None => 2 end in
    (is_finite value = false ->
     formatNumber Binary64.toFixed value precision = Normal "â€”"%string)
    /\ (is_finite value = true ->
        forall f : Z,
          Binary64.ToIntegerOrInfinity p = Some f ->
          (0 <= f <= 100)%Z ->
          (exists text : string,
              formatNumber Binary64.toFixed value precision = Normal text
              /\ Binary64.toFixed value p = Normal text)
          /\ (forall (s : bool) (m : positive) (e : Z),
                 Prim2SF value = S754_finite s m e ->
                 ((0 <=? e)%Z && (10 ^ 21 <=? Zpos m * 2 ^ e)%Z) = false ->
                 let n := Binary64.scaled m e f in
                 formatNumber Binary64.toFixed value precision
                 = Normal ((if s then "-" else "")
                           ++ Binary64.fixedText n f)%string
                 /\ ((0 <= e)%Z -> n = (Zpos m * 2 ^ e * 10 ^ f)%Z)
                 /\ ((e < 0)%Z ->
                     (2 * (Zpos m * 10 ^ f) - 2 ^ (- e)
                      < 2 * (n * 2 ^ (- e))
                      <= 2 * (Zpos m * 10 ^ f) + 2 ^ (- e))%Z)))
    /\ (is_finite value = true ->
        (Binary64.ToIntegerOrInfinity p = None
         \/ exists f : Z,
              Binary64.ToIntegerOrInfinity p = Some f
              /\ (f < 0 \/ 100 < f)%Z) ->
        formatNumber Binary64.toFixed value precision = Throw "RangeError").
Proof.
  intros value precision p.
  assert (Hp : p = match precision with
                   | Some p => p
                   | None => DEFAULT_PRECISION
                   end) by (destruct precision; reflexivity).
  assert (Hfinite : is_finite value = true ->
                    formatNumber Binary64.toFixed value precision
                    = Binary64.toFixed value p).
  { intros H. unfold formatNumber. rewrite <- Hp. unfold is_finite in *.
    destruct (is_nan value), (is_infinity value); try discriminate.
    reflexivity. }
  split; [| split].
  - intros H. unfold formatNumber, is_finite in *.
    destruct (is_nan value), (is_infinity value); try discriminate;
      reflexivity.
  - intros H f Hf Hrange. rewrite (Hfinite H).
    assert (Hcheck : ((f <? 0)%Z || (100 <? f)%Z) = false).
    { apply orb_false_iff. split; apply Z.ltb_ge; lia. }
    split.
    + unfold Binary64.toFixed. rewrite Hf, Hcheck.
      destruct (Prim2SF value) as [sz | si | | s m e].
      * eexists; split; reflexivity.
      * eexists; split; reflexivity.
      * eexists; split; reflexivity.
      * cbv zeta. destruct ((0 <=? e)%Z && (10 ^ 21 <=? Zpos m * 2 ^ e)%Z);
          eexists; split; reflexivity.
    + intros s m e Hvalue Hsmall n. split.
      * unfold Binary64.toFixed. rewrite Hf, Hcheck, Hvalue. cbv zeta.
        rewrite Hsmall. reflexivity.
      * apply scaled_nearest. lia.
  - intros H Hbad. rewrite (Hfinite H). unfold Binary64.toFixed.
    destruct Hbad as [-> | (f & -> & Hout)]; [reflexivity |].
    assert (Hcheck : ((f <? 0)%Z || (100 <? f)%Z) = true).
    { apply orb_true_iff. destruct Hout; [left | right];
        apply Z.ltb_lt; assumption. }
    rewrite Hcheck. reflexivity.
Qed.

Lemma formatNumber_renders_or_raises_witness :
  (is_finite nan = false
   /\ formatNumber Binary64.toFixed nan (Some 101) = Normal "â€”"%string)
  /\ (is_finite 1.5 = true
      /\ Binary64.ToIntegerOrInfinity 2 = Some 2%Z
      /\ exists text : string,
           formatNumber Binary64.toFixed 1.5 None = Normal text
           /\ Binary64.toFixed 1.5 2 = Normal text)
  /\ (is_finite 1 = true
      /\ Binary64.ToIntegerOrInfinity 101 = Some 101%Z
      /\ formatNumber Binary64.toFixed 1 (Some 101) = Throw "RangeError").
Proof.
  assert (Hnan : is_finite nan = false) by reflexivity.
  assert (Hfin : is_finite 1.5 = true) by reflexivity.
  assert (Hone : is_finite 1 = true) by reflexivity.
  assert (Htwo : Binary64.ToIntegerOrInfinity 2 = Some 2%Z)
    by (vm_compute; reflexivity).
  assert (Hbig : Binary64.ToIntegerOrInfinity 101 = Some 101%Z)
    by (vm_compute; reflexivity).
  split; [| split].
  - split; [exact Hnan |].
    exact (proj1 (formatNumber_renders_or_raises nan (Some 101)) Hnan).
  - split; [exact Hfin | split; [exact Htwo |]].
    apply (proj1 (proj2 (formatNumber_renders_or_raises 1.5 None))
             Hfin 2%Z Htwo).
    lia.
  - split; [exact Hone | split; [exact Hbig |]].
    apply (proj2 (proj2 (formatNumber_renders_or_raises 1 (Some 101))) Hone).
    right. exists 101%Z. split; [exact Hbig | right; lia].
Defined.

End Binary64Properties.
